(** * Weather advisor: the advice coordination layer

    A shallow embedding of the two services of the repository,
    [services/weather] (GetCurrentWeather, getWeatherDescription) and
    [services/advisor] (geocodeCity, GetAdvice, StreamAdvice, generateAdvice,
    streamAdviceGeneration), and the properties the specification states
    about them.

    Go values are modelled as follows.
    - [float64] is Rocq's primitive binary64 [float]; a literal such as
      [40.7128] denotes the nearest binary64 value, as it does in Go.
    - [int32] and [int64] are [Z] (no arithmetic is done on them).
    - [string] is [string] (a sequence of bytes); an [error] is the string
      its [Error()] method returns, which is all the code ever reads of it.
    - a Go [map] literal is a stdpp [gmap].
    - every call that leaves the process (HTTP GET, the clock, the metrics
      registry, the generative backend, the gRPC sink) is an [Event]; a
      function that performs such calls takes the history of events so far
      and returns its result with the events it emitted itself. *)

From Stdlib Require Import ZArith String Ascii List Bool Floats DecimalString Lia.
From stdpp Require Import base option list gmap strings.

Set Warnings "-inexact-float".
Open Scope string_scope.
Open Scope list_scope.
Open Scope Z_scope.

(** ** The fragments of Go's standard library the services use *)

Module strings.

(** [strings.Join(elems, sep)] *)
Fixpoint Join (elems : list string) (sep : string) : string :=
  match elems with
  | [] => ""
  | [s] => s
  | s :: rest => s +:+ sep +:+ Join rest sep
  end.

(** [strings.HasPrefix(s, prefix)] *)
Fixpoint HasPrefix (s prefix : string) : bool :=
  match prefix, s with
  | EmptyString, _ => true
  | String p prefix', String c s' =>
      if Ascii.eqb p c then HasPrefix s' prefix' else false
  | String _ _, EmptyString => false
  end.

(** [strings.Contains(s, substr)] *)
Fixpoint Contains (s substr : string) : bool :=
  if HasPrefix s substr then true
  else match s with
       | EmptyString => false
       | String _ s' => Contains s' substr
       end.

(** [strings.Builder]: the text written so far. *)
Definition Builder := string.
Definition WriteString (b : Builder) (s : string) : Builder := b +:+ s.

End strings.

Module fmt.

(** The verb [%d] on an integer. *)
Definition d (n : Z) : string := NilZero.string_of_int (Z.to_int n).

Definition zeros (n : nat) : string := String.concat "" (repeat "0" n).

Definition pad_left_zeros (width : nat) (s : string) : string :=
  zeros (width - String.length s) +:+ s.

(** The decimal expansion of [m * 2^e], rounded to [prec] fractional
    digits, ties to even: what [strconv.FormatFloat(x, 'f', prec, 64)]
    prints for a positive finite [x]. *)
Definition fixed (prec : nat) (m : positive) (e : Z) : string :=
  let scale := 10 ^ Z.of_nat prec in
  let num := Z.pos m * scale in
  let q :=
    if 0 <=? e then num * 2 ^ e
    else
      let den := 2 ^ (- e) in
      let q0 := num / den in
      let r := num mod den in
      if (den <? 2 * r) || ((den =? 2 * r) && Z.odd q0) then q0 + 1 else q0 in
  match prec with
  | O => d q
  | _ => d (q / scale) +:+ "." +:+ pad_left_zeros prec (d (q mod scale))
  end.

Definition sign (s : bool) : string := if s then "-" else "".

(** The verbs [%.Nf] (and [%f], which is [%.6f]) on a float64. *)
Definition f (prec : nat) (x : float) : string :=
  match Prim2SF x with
  | S754_nan => "NaN"
  | S754_infinity false => "+Inf"
  | S754_infinity true => "-Inf"
  | S754_zero s =>
      sign s +:+ match prec with O => "0" | _ => "0." +:+ zeros prec end
  | S754_finite s m e => sign s +:+ fixed prec m e
  end.

End fmt.

Module url.

Definition unreserved (c : ascii) : bool :=
  let n := Z.of_nat (nat_of_ascii c) in
  ((65 <=? n) && (n <=? 90)) || ((97 <=? n) && (n <=? 122))
  || ((48 <=? n) && (n <=? 57))
  || (n =? 45) || (n =? 95) || (n =? 46) || (n =? 126).

Definition hexdigit (n : nat) : ascii :=
  match String.get n "0123456789ABCDEF" with
  | Some c => c
  | None => "0"%char
  end.

(** [url.QueryEscape(s)]: a space becomes [+], every byte that is not a
    letter, a digit or one of [-_.~] becomes [%XX]. *)
Fixpoint QueryEscape (s : string) : string :=
  match s with
  | EmptyString => ""
  | String c s' =>
      (if Ascii.eqb c " "%char then "+"
       else if unreserved c then String c ""
       else
         let n := nat_of_ascii c in
         String "%"%char
           (String (hexdigit (n / 16)%nat) (String (hexdigit (n mod 16)%nat) "")))
      +:+ QueryEscape s'
  end.

End url.

Module http.
Definition StatusOK : Z := 200.

Record Response := { StatusCode : Z; Body : string }.
End http.

(** ** Messages and wire shapes *)

(** The protobuf messages of [shared/proto/weatherpb]. *)
Module weatherpb.
Record WeatherRequest := { Latitude : float; Longitude : float }.

Record WeatherResponse := {
  Location : string;
  Temperature : float;
  FeelsLike : float;
  TempMin : float;
  TempMax : float;
  Pressure : Z;
  Humidity : Z;
  WindSpeed : float;
  WindDeg : Z;
  Timestamp : Z;
  Description : string
}.
End weatherpb.

(** The protobuf messages of [shared/proto/advisorpb]. *)
Module advisorpb.
Record CityData := { Location : string; State : string; Country : string }.
Record AdvisorRequest := { Cities : list CityData }.
Record AdvisorResponse := { Advice : string }.
Record StreamAdviceResponse := { Chunk : string; IsComplete : bool }.
End advisorpb.

(** The structs the JSON bodies of the two Open-Meteo endpoints are decoded
    into: [weather.OpenMeteoResponse] and [advisor.GeocodeResponse]. *)
Module openmeteo.
Record CurrentBlock := {
  Temperature : float;
  Humidity : Z;
  WindSpeed : float;
  WindDir : Z;
  WeatherCode : Z
}.
Record CurrentUnitsBlock := { TemperatureUnit : string; WindSpeedUnit : string }.
Record OpenMeteoResponse := { Current : CurrentBlock; CurrentUnits : CurrentUnitsBlock }.

Record GeocodeResult := {
  Name : string;
  Latitude : float;
  Longitude : float;
  Country : string;
  Admin1 : string
}.
Record GeocodeResponse := { Results : list GeocodeResult }.
End openmeteo.

(** The part of [github.com/google/generative-ai-go/genai] the advisor
    touches. A [Part] is an interface value; the advisor only asks whether
    it is a [Text]. A candidate's content is taken to be present. *)
Module genai.
Inductive Part :=
| Text (text : string)
| Blob (mime : string) (data : string)
| OtherPart.

Record Content := { Parts : list Part }.
Record Candidate := { CandidateContent : Content }.
Record GenerateContentResponse := { Candidates : list Candidate }.

(** What a [GenerateContentResponseIterator] still holds: the responses
    [Next] will return one by one, then the error it returns once they
    are used up ([iterator.Done], a transport error, ...). The stream of
    one generation request is finite. *)
Record ResponseIterator := {
  pending : list GenerateContentResponse;
  stop : string
}.
End genai.

(** ** The world outside the process *)

Module world.

Definition error := string.

(** A Go result [(T, error)]. *)
Inductive Res (A : Type) : Type :=
| Ok (a : A)
| Err (err : error).
Arguments Ok {A} a.
Arguments Err {A} err.

Inductive Event :=
| HttpGet (url : string)
| TimeNow
| CounterInc (name label : string)
| ObserveDuration (name : string)
| GenerateContent (model prompt : string)
| GenerateContentStream (model prompt : string)
| StreamSend (msg : advisorpb.StreamAdviceResponse).

(** Events so far, oldest first. *)
Definition History := list Event.

(** How the outside answers, given everything that happened before. The
    two decoders stand for [json.NewDecoder(body).Decode(&v)]. *)
Record Env := {
  http_get : History -> string -> error + http.Response;
  time_now_unix : History -> Z;
  decode_weather : string -> error + openmeteo.OpenMeteoResponse;
  decode_geocode : string -> error + openmeteo.GeocodeResponse;
  generate_content : History -> string -> string -> error + genai.GenerateContentResponse;
  generate_content_stream : History -> string -> string -> genai.ResponseIterator;
  stream_send : History -> advisorpb.StreamAdviceResponse -> option error
}.

(** A computation reads the history and returns its value together with
    the events it emitted. *)
Definition M (A : Type) : Type := History -> A * list Event.

Definition ret {A} (a : A) : M A := fun _ => (a, []).

Definition bind {A B} (m : M A) (k : A -> M B) : M B :=
  fun h =>
    let '(a, evs) := m h in
    let '(b, evs') := k a (h ++ evs) in
    (b, evs ++ evs').

(** Emit [ev] and return the outside's answer to it. *)
Definition call {A} (ev : Event) (answer : History -> A) : M A :=
  fun h => (answer h, [ev]).

Definition emit (ev : Event) : M unit := call ev (fun _ => tt).

(** [defer]: [ev] happens when the function returns, on every path. *)
Definition defer {A} (ev : Event) (body : M A) : M A :=
  fun h => let '(a, evs) := body h in (a, evs ++ [ev]).

Definition run {A} (m : M A) (h : History) : A * list Event := m h.

Definition sent (ev : Event) : option advisorpb.StreamAdviceResponse :=
  match ev with
  | StreamSend msg => Some msg
  | _ => None
  end.

(** The messages handed to [stream.Send], in order. *)
Definition sent_messages (evs : list Event) : list advisorpb.StreamAdviceResponse :=
  omap sent evs.

Definition is_generation (ev : Event) : bool :=
  match ev with
  | GenerateContent _ _ | GenerateContentStream _ _ => true
  | _ => false
  end.

Definition is_http_get (ev : Event) : bool :=
  match ev with
  | HttpGet _ => true
  | _ => false
  end.

End world.

Declare Scope go_scope.
Delimit Scope go_scope with go.
Notation "x <- m ;; k" := (world.bind m (fun x => k))
  (at level 100, m at next level, right associativity) : go_scope.
Notation "m ;; k" := (world.bind m (fun _ => k))
  (at level 100, right associativity) : go_scope.
Open Scope go_scope.

(** ** services/weather *)

Module weather.
Import world.

Definition weatherRequests : string := "weather_requests_total".
Definition weatherDuration : string := "weather_request_duration_seconds".

Definition descriptions : gmap Z string :=
  list_to_map
    [ (0, "clear sky"); (1, "mainly clear"); (2, "partly cloudy"); (3, "overcast");
      (45, "fog"); (48, "depositing rime fog"); (51, "light drizzle");
      (53, "moderate drizzle"); (55, "dense drizzle"); (61, "slight rain");
      (63, "moderate rain"); (65, "heavy rain"); (71, "slight snow");
      (73, "moderate snow"); (75, "heavy snow"); (80, "rain showers");
      (81, "moderate rain showers"); (82, "violent rain showers");
      (95, "thunderstorm") ].

Definition getWeatherDescription (code : Z) : string :=
  match descriptions !! code with
  | Some desc => desc
  | None => "unknown"
  end.

Definition forecastURL (lat lon : float) : string :=
  "https://api.open-meteo.com/v1/forecast?latitude=" +:+ fmt.f 6 lat
  +:+ "&longitude=" +:+ fmt.f 6 lon
  +:+ "&current=temperature_2m,relative_humidity_2m,wind_speed_10m,wind_direction_10m,weather_code&timezone=auto".

(** [fmt.Sprintf("%.2f,%.2f", lat, lon)] *)
Definition locationLabel (lat lon : float) : string :=
  fmt.f 2 lat +:+ "," +:+ fmt.f 2 lon.

Definition GetCurrentWeather (env : Env) (req : weatherpb.WeatherRequest)
  : M (Res weatherpb.WeatherResponse) :=
  defer (ObserveDuration weatherDuration)
    (let url := forecastURL (weatherpb.Latitude req) (weatherpb.Longitude req) in
     got <- call (HttpGet url) (fun h => http_get env h url) ;;
     match got with
     | inl err =>
         emit (CounterInc weatherRequests "error") ;;
         ret (Err ("API request failed: " +:+ err))
     | inr resp =>
         if negb (http.StatusCode resp =? http.StatusOK) then
           emit (CounterInc weatherRequests "error") ;;
           ret (Err ("API status: " +:+ fmt.d (http.StatusCode resp)))
         else
           match decode_weather env (http.Body resp) with
           | inl err =>
               emit (CounterInc weatherRequests "error") ;;
               ret (Err ("decode failed: " +:+ err))
           | inr weatherData =>
               let current := openmeteo.Current weatherData in
               now <- call TimeNow (time_now_unix env) ;;
               let response :=
                 {| weatherpb.Location :=
                      locationLabel (weatherpb.Latitude req) (weatherpb.Longitude req);
                    weatherpb.Temperature := openmeteo.Temperature current;
                    weatherpb.FeelsLike := openmeteo.Temperature current;
                    weatherpb.TempMin := openmeteo.Temperature current;
                    weatherpb.TempMax := openmeteo.Temperature current;
                    weatherpb.Pressure := 1013;
                    weatherpb.Humidity := openmeteo.Humidity current;
                    weatherpb.WindSpeed := openmeteo.WindSpeed current;
                    weatherpb.WindDeg := openmeteo.WindDir current;
                    weatherpb.Timestamp := now;
                    weatherpb.Description :=
                      getWeatherDescription (openmeteo.WeatherCode current) |} in
               emit (CounterInc weatherRequests "success") ;;
               ret (Ok response)
           end
     end).

(** [NewWeatherService()]: the service as the advisor sees it, through
    the [WeatherServiceServer] interface. *)
Definition NewWeatherService (env : Env)
  : weatherpb.WeatherRequest -> M (Res weatherpb.WeatherResponse) :=
  GetCurrentWeather env.

End weather.

(** ** services/advisor *)

Module advisor.
Import world.

Definition advisorRequests : string := "advisor_requests_total".
Definition advisorDuration : string := "advisor_request_duration_seconds".

Record advisorService := {
  weatherSvc : weatherpb.WeatherRequest -> M (Res weatherpb.WeatherResponse)
}.

Definition NewAdvisorService
    (weatherSvc : weatherpb.WeatherRequest -> M (Res weatherpb.WeatherResponse))
  : advisorService :=
  {| weatherSvc := weatherSvc |}.

Definition cityCoords : gmap string (float * float) :=
  list_to_map
    [ ("New York", (40.7128, -74.0060)%float);
      ("London", (51.5074, -0.1278)%float);
      ("Tokyo", (35.6762, 139.6503)%float);
      ("Paris", (48.8566, 2.3522)%float);
      ("Los Angeles", (34.0522, -118.2437)%float);
      ("Chicago", (41.8781, -87.6298)%float);
      ("Sydney", (-33.8688, 151.2093)%float) ].

Definition geocodeURL (location : string) : string :=
  "https://geocoding-api.open-meteo.com/v1/search?name=" +:+ url.QueryEscape location
  +:+ "&count=1&language=en&format=json".

(** The names the "location not found" message lists, as written there. *)
Definition hintNames : list string :=
  ["New York"; "London"; "Tokyo"; "Paris"; "Los Angeles"; "Chicago"; "Sydney"].

Definition notFoundMessage (location : string) : string :=
  "location not found: " +:+ location
  +:+ " (try: New York, London, Tokyo, Paris, Los Angeles, Chicago, Sydney)".

Definition geocodeCity (env : Env) (city : advisorpb.CityData) (apiKey : string)
  : M (Res (float * float)) :=
  match cityCoords !! advisorpb.Location city with
  | Some coords => ret (Ok (coords.1, coords.2))
  | None =>
      let apiURL := geocodeURL (advisorpb.Location city) in
      got <- call (HttpGet apiURL) (fun h => http_get env h apiURL) ;;
      match got with
      | inl err => ret (Err ("geocoding failed: " +:+ err))
      | inr resp =>
          if negb (http.StatusCode resp =? http.StatusOK) then
            ret (Err ("geocoding API returned status " +:+ fmt.d (http.StatusCode resp)))
          else
            match decode_geocode env (http.Body resp) with
            | inl err => ret (Err ("decode failed: " +:+ err))
            | inr geocodeResp =>
                match openmeteo.Results geocodeResp with
                | [] => ret (Err (notFoundMessage (advisorpb.Location city)))
                | first :: _ =>
                    ret (Ok (openmeteo.Latitude first, openmeteo.Longitude first))
                end
            end
      end
  end.

Definition degree : string := String "194"%char (String "176"%char "").

(** [fmt.Sprintf("City: %s, Temp: %.1f°C, Condition: %s, Humidity: %d%%, Wind: %.1f m/s", ...)] *)
Definition weatherInfo (weatherResp : weatherpb.WeatherResponse) : string :=
  "City: " +:+ weatherpb.Location weatherResp
  +:+ ", Temp: " +:+ fmt.f 1 (weatherpb.Temperature weatherResp) +:+ degree +:+ "C"
  +:+ ", Condition: " +:+ weatherpb.Description weatherResp
  +:+ ", Humidity: " +:+ fmt.d (weatherpb.Humidity weatherResp) +:+ "%"
  +:+ ", Wind: " +:+ fmt.f 1 (weatherpb.WindSpeed weatherResp) +:+ " m/s".

(** The loop over [req.Cities], which GetAdvice and StreamAdvice both
    open with: geocode the city, fetch its weather, append its line to
    [weatherData]; return at the first error. *)
Fixpoint gatherWeather (env : Env) (s : advisorService)
    (cities : list advisorpb.CityData) (weatherData : list string)
  : M (Res (list string)) :=
  match cities with
  | [] => ret (Ok weatherData)
  | city :: rest =>
      located <- geocodeCity env city "" ;;
      match located with
      | Err err =>
          emit (CounterInc advisorRequests "error") ;;
          ret (Err ("geocoding failed for " +:+ advisorpb.Location city +:+ ": " +:+ err))
      | Ok (lat, lon) =>
          let weatherReq := {| weatherpb.Latitude := lat; weatherpb.Longitude := lon |} in
          fetched <- weatherSvc s weatherReq ;;
          match fetched with
          | Err err =>
              emit (CounterInc advisorRequests "error") ;;
              ret (Err ("weather request failed for " +:+ advisorpb.Location city
                        +:+ ": " +:+ err))
          | Ok weatherResp =>
              gatherWeather env s rest (weatherData ++ [weatherInfo weatherResp])
          end
      end
  end.

Definition LF : string := String "010"%char "".

Definition modelName : string := "gemini-1.5-flash".

(** The prompt both generation functions build from [weatherData]. *)
Definition advicePrompt (weatherData : list string) : string :=
  "Weather advisor. Based on this data provide practical advice:" +:+ LF +:+ LF
  +:+ strings.Join weatherData LF +:+ LF +:+ LF
  +:+ "Include: summary, clothing advice, activity suggestions, warnings. Keep it concise.".

(** The text parts of [parts], written to a builder in order. *)
Definition textOf (parts : list genai.Part) : string :=
  fold_left
    (fun advice part =>
       match part with
       | genai.Text text => strings.WriteString advice text
       | _ => advice
       end)
    parts "".

Definition generateAdvice (env : Env) (weatherData : list string) : M (Res string) :=
  let prompt := advicePrompt weatherData in
  got <- call (GenerateContent modelName prompt)
           (fun h => generate_content env h modelName prompt) ;;
  match got with
  | inl err => ret (Err ("Gemini API failed: " +:+ err))
  | inr resp =>
      match genai.Candidates resp with
      | [] => ret (Err "no response generated")
      | first :: _ => ret (Ok (textOf (genai.Parts (genai.CandidateContent first))))
      end
  end.

Definition GetAdvice (env : Env) (s : advisorService) (req : advisorpb.AdvisorRequest)
  : M (Res advisorpb.AdvisorResponse) :=
  defer (ObserveDuration advisorDuration)
    (gathered <- gatherWeather env s (advisorpb.Cities req) [] ;;
     match gathered with
     | Err err => ret (Err err)
     | Ok weatherData =>
         generated <- generateAdvice env weatherData ;;
         match generated with
         | Err err =>
             emit (CounterInc advisorRequests "error") ;;
             ret (Err ("advice generation failed: " +:+ err))
         | Ok advice =>
             emit (CounterInc advisorRequests "success") ;;
             ret (Ok {| advisorpb.Advice := advice |})
         end
     end).

Definition chunk (text : string) : advisorpb.StreamAdviceResponse :=
  {| advisorpb.Chunk := text; advisorpb.IsComplete := false |}.

Definition completion : advisorpb.StreamAdviceResponse :=
  {| advisorpb.Chunk := ""; advisorpb.IsComplete := true |}.

Definition Send (env : Env) (msg : advisorpb.StreamAdviceResponse) : M (Res unit) :=
  call (StreamSend msg)
    (fun h => match stream_send env h msg with Some err => Err err | None => Ok tt end).

(** The test the streaming loop applies to an error of [iter.Next()]. *)
Definition endOfStream (err : error) : bool :=
  strings.Contains err "EOF" || strings.Contains err "iterator stopped".

(** [for _, part := range cand.Content.Parts] *)
Fixpoint sendParts (env : Env) (parts : list genai.Part) : M (Res unit) :=
  match parts with
  | [] => ret (Ok tt)
  | genai.Text text :: rest =>
      r <- Send env (chunk text) ;;
      match r with
      | Err err => ret (Err ("failed to send chunk: " +:+ err))
      | Ok _ => sendParts env rest
      end
  | _ :: rest => sendParts env rest
  end.

(** [for _, cand := range resp.Candidates] *)
Fixpoint sendCandidates (env : Env) (cands : list genai.Candidate) : M (Res unit) :=
  match cands with
  | [] => ret (Ok tt)
  | cand :: rest =>
      r <- sendParts env (genai.Parts (genai.CandidateContent cand)) ;;
      match r with
      | Err err => ret (Err err)
      | Ok _ => sendCandidates env rest
      end
  end.

(** [for { resp, err := iter.Next() ... }]: [pending] is what the
    iterator still holds, [stop] the error it ends with. *)
Fixpoint relay (env : Env) (pending : list genai.GenerateContentResponse) (stop : error)
  : M (Res unit) :=
  match pending with
  | [] =>
      if endOfStream stop then Send env completion
      else ret (Err ("streaming failed: " +:+ stop))
  | resp :: rest =>
      r <- sendCandidates env (genai.Candidates resp) ;;
      match r with
      | Err err => ret (Err err)
      | Ok _ => relay env rest stop
      end
  end.

Definition streamAdviceGeneration (env : Env) (weatherData : list string)
  : M (Res unit) :=
  let prompt := advicePrompt weatherData in
  iter <- call (GenerateContentStream modelName prompt)
            (fun h => generate_content_stream env h modelName prompt) ;;
  relay env (genai.pending iter) (genai.stop iter).

Definition StreamAdvice (env : Env) (s : advisorService) (req : advisorpb.AdvisorRequest)
  : M (Res unit) :=
  defer (ObserveDuration advisorDuration)
    (gathered <- gatherWeather env s (advisorpb.Cities req) [] ;;
     match gathered with
     | Err err => ret (Err err)
     | Ok weatherData =>
         r <- streamAdviceGeneration env weatherData ;;
         match r with
         | Err err =>
             emit (CounterInc advisorRequests "error") ;;
             ret (Err ("advice generation failed: " +:+ err))
         | Ok _ =>
             emit (CounterInc advisorRequests "success") ;;
             ret (Ok tt)
         end
     end).

End advisor.

(** [cmd/server/main.go]: the advisor is given the weather service of the
    same process. *)
Definition server (env : world.Env) : advisor.advisorService :=
  advisor.NewAdvisorService (weather.NewWeatherService env).

(** ** The conditions the specification names

    The code has a single error type; the conditions of the specification
    are told apart by the message the code builds. *)

Module condition.
Import world.

(** The resolver found no such place. *)
Definition NotFound (e : error) : Prop :=
  exists location, e = advisor.notFoundMessage location.

(** The geocoding provider could not be reached or refused. *)
Definition UpstreamUnavailable (e : error) : Prop :=
  (exists cause, e = "geocoding failed: " +:+ cause)
  \/ (exists status, status <> http.StatusOK
                     /\ e = "geocoding API returned status " +:+ fmt.d status).

(** The generative backend answered with no candidate. *)
Definition NoResponse (e : error) : Prop :=
  e = "advice generation failed: no response generated".

(** The generative backend failed while streaming. *)
Definition GenerationError (e : error) : Prop :=
  exists cause, e = "advice generation failed: streaming failed: " +:+ cause.
End condition.

(** ** A small world to run the services in *)

Module demo.
Import world.

Definition mild : openmeteo.OpenMeteoResponse :=
  {| openmeteo.Current :=
       {| openmeteo.Temperature := 18.5%float;
          openmeteo.Humidity := 60;
          openmeteo.WindSpeed := 3.25%float;
          openmeteo.WindDir := 270;
          openmeteo.WeatherCode := 2 |};
     openmeteo.CurrentUnits :=
       {| openmeteo.TemperatureUnit := "C"; openmeteo.WindSpeedUnit := "km/h" |} |}.

(** As [mild], with a weather code the provider does not document. *)
Definition odd : openmeteo.OpenMeteoResponse :=
  {| openmeteo.Current :=
       {| openmeteo.Temperature := (-3)%float;
          openmeteo.Humidity := 91;
          openmeteo.WindSpeed := 0.5%float;
          openmeteo.WindDir := 10;
          openmeteo.WeatherCode := 77 |};
     openmeteo.CurrentUnits :=
       {| openmeteo.TemperatureUnit := "C"; openmeteo.WindSpeedUnit := "km/h" |} |}.

Definition reykjavik : openmeteo.GeocodeResult :=
  {| openmeteo.Name := "Reykjavik";
     openmeteo.Latitude := 64.1466%float;
     openmeteo.Longitude := (-21.9426)%float;
     openmeteo.Country := "Iceland";
     openmeteo.Admin1 := "Capital Region" |}.

Definition oslo : openmeteo.GeocodeResult :=
  {| openmeteo.Name := "Oslo";
     openmeteo.Latitude := 59.9139%float;
     openmeteo.Longitude := 10.7522%float;
     openmeteo.Country := "Norway";
     openmeteo.Admin1 := "Oslo" |}.

Definition httpGet (url : string) : error + http.Response :=
  if strings.HasPrefix url "https://geocoding-api.open-meteo.com/" then
    if strings.Contains url "Reykjavik" then
      inr {| http.StatusCode := 200; http.Body := "results: Reykjavik" |}
    else if strings.Contains url "Oslo" then
      inr {| http.StatusCode := 200; http.Body := "results: Oslo" |}
    else if strings.Contains url "Atlantis" then
      inl "dial tcp: i/o timeout"
    else if strings.Contains url "Cibola" then
      inr {| http.StatusCode := 503; http.Body := "" |}
    else
      inr {| http.StatusCode := 200; http.Body := "results: none" |}
  else if strings.Contains url "latitude=64.146600" then
    inr {| http.StatusCode := 500; http.Body := "" |}
  else if strings.Contains url "latitude=-33.868800" then
    inr {| http.StatusCode := 200; http.Body := "current: odd" |}
  else
    inr {| http.StatusCode := 200; http.Body := "current: mild" |}.

Definition decodeWeather (body : string) : error + openmeteo.OpenMeteoResponse :=
  if String.eqb body "current: mild" then inr mild
  else if String.eqb body "current: odd" then inr odd
  else inl "unexpected end of JSON input".

Definition decodeGeocode (body : string) : error + openmeteo.GeocodeResponse :=
  if String.eqb body "results: Reykjavik" then inr {| openmeteo.Results := [reykjavik] |}
  else if String.eqb body "results: Oslo" then inr {| openmeteo.Results := [oslo; reykjavik] |}
  else if String.eqb body "results: none" then inr {| openmeteo.Results := [] |}
  else inl "unexpected end of JSON input".

(** A world whose generative backend answers [reply] to a single-shot
    request and [iter] to a streaming one, and whose sink accepts every
    message. *)
Definition env (reply : error + genai.GenerateContentResponse)
    (iter : genai.ResponseIterator) : Env :=
  {| http_get := fun _ => httpGet;
     time_now_unix := fun _ => 1793232000;
     decode_weather := decodeWeather;
     decode_geocode := decodeGeocode;
     generate_content := fun _ _ _ => reply;
     generate_content_stream := fun _ _ _ => iter;
     stream_send := fun _ _ => None |}.

Definition candidate (parts : list genai.Part) : genai.Candidate :=
  {| genai.CandidateContent := {| genai.Parts := parts |} |}.

Definition reply : genai.GenerateContentResponse :=
  {| genai.Candidates :=
       [candidate [genai.Text "Mild and partly cloudy. "; genai.Text "A light jacket will do."];
        candidate [genai.Text "Second opinion."]] |}.

(** One candidate, and nothing in it: what a blocked generation looks like. *)
Definition silent : genai.GenerateContentResponse :=
  {| genai.Candidates := [candidate []] |}.

Definition iterator (stop : error) : genai.ResponseIterator :=
  {| genai.pending :=
       [ {| genai.Candidates := [candidate [genai.Text "Mild and "]] |};
         {| genai.Candidates := [] |};
         {| genai.Candidates :=
              [candidate [genai.Text "partly cloudy."; genai.OtherPart; genai.Text ""]] |} ];
     genai.stop := stop |}.

Definition usual : Env := env (inr reply) (iterator "EOF").

Definition city (name : string) : advisorpb.CityData :=
  {| advisorpb.Location := name; advisorpb.State := ""; advisorpb.Country := "" |}.

Definition request (names : list string) : advisorpb.AdvisorRequest :=
  {| advisorpb.Cities := map city names |}.
End demo.

(** ** What a run of the orchestrator looks like from the outside *)

Module shape.
Import world.

(** The events resolving [city] emits, and the coordinate it gives: none
    for a name of the curated table, one geocoding request otherwise. *)
Inductive Resolved (city : advisorpb.CityData) : list Event -> float * float -> Prop :=
| from_table coords :
    advisor.cityCoords !! advisorpb.Location city = Some coords ->
    Resolved city [] coords
| from_provider coords :
    advisor.cityCoords !! advisorpb.Location city = None ->
    Resolved city [HttpGet (advisor.geocodeURL (advisorpb.Location city))] coords.

(** The events a successful fetch at [coords] emits, what the response is
    labelled with and where its description comes from. *)
Inductive Fetched (coords : float * float) : list Event -> weatherpb.WeatherResponse -> Prop :=
| fetch_done w code :
    weatherpb.Location w = weather.locationLabel coords.1 coords.2 ->
    weatherpb.Description w = weather.getWeatherDescription code ->
    Fetched coords
      [HttpGet (weather.forecastURL coords.1 coords.2); TimeNow;
       CounterInc weather.weatherRequests "success";
       ObserveDuration weather.weatherDuration] w.

(** [InOrder cities evs lines]: [evs] is, city by city in the order of
    [cities], the resolution of the city followed by the fetch at the
    coordinate it resolved to, and [lines] has the line of each city in
    the same order. *)
Inductive InOrder : list advisorpb.CityData -> list Event -> list string -> Prop :=
| in_order_nil : InOrder [] [] []
| in_order_cons city cities coords w revs wevs evs lines :
    Resolved city revs coords ->
    Fetched coords wevs w ->
    InOrder cities evs lines ->
    InOrder (city :: cities) (revs ++ wevs ++ evs) (advisor.weatherInfo w :: lines).

(** [CityFails env city h e evs]: after [h], gathering [city] fails with
    the error [e] having emitted [evs], either in geocoding or, geocoding
    done, in the weather request. *)
Inductive CityFails (env : Env) (city : advisorpb.CityData) (h : History)
  : error -> list Event -> Prop :=
| in_geocoding cause revs :
    run (advisor.geocodeCity env city "") h = (Err cause, revs) ->
    CityFails env city h
      ("geocoding failed for " +:+ advisorpb.Location city +:+ ": " +:+ cause)
      revs
| in_weather lat lon revs cause wevs :
    run (advisor.geocodeCity env city "") h = (Ok (lat, lon), revs) ->
    run (weather.GetCurrentWeather env
           {| weatherpb.Latitude := lat; weatherpb.Longitude := lon |}) (h ++ revs)
      = (Err cause, wevs) ->
    CityFails env city h
      ("weather request failed for " +:+ advisorpb.Location city +:+ ": " +:+ cause)
      (revs ++ wevs).

(** The events gathering weather can emit: requests to the two
    providers, the clock, the metrics. *)
Definition gathering (ev : Event) : bool :=
  match ev with
  | HttpGet _ | TimeNow | CounterInc _ _ | ObserveDuration _ => true
  | _ => false
  end.

(** The text parts of [parts], in order. *)
Definition textsOf (parts : list genai.Part) : list string :=
  flat_map (fun part => match part with genai.Text text => [text] | _ => [] end) parts.

Definition textsOfCandidates (cands : list genai.Candidate) : list string :=
  flat_map (fun cand => textsOf (genai.Parts (genai.CandidateContent cand))) cands.

(** The text the generative backend produced, segment by segment: the
    text parts of every candidate of every response, in order. *)
Definition generated (responses : list genai.GenerateContentResponse) : list string :=
  flat_map (fun resp => textsOfCandidates (genai.Candidates resp)) responses.

(** [s] has no line feed in it. *)
Definition oneLine (s : string) : Prop := strings.Contains s advisor.LF = false.

(** Texts put together, in order. *)
Definition concatenated (texts : list string) : string :=
  fold_right String.append "" texts.

(** One send of a non-final message per text. *)
Definition sends (texts : list string) : list Event :=
  map (fun text => StreamSend (advisor.chunk text)) texts.

(** What a loop of sends did, by its result: on success every text was
    sent; on failure a prefix was, and the error is a failed send. *)
Definition relayed (texts : list string) (r : Res unit) (evs : list Event) : Prop :=
  match r with
  | Ok _ => evs = sends texts
  | Err e =>
      exists done cause,
        done `prefix_of` texts /\ evs = sends done
        /\ e = "failed to send chunk: " +:+ cause
  end.

(** The loop over the iterator, by its outcome: the stream ended and the
    completion message went out; the stream ended and the completion
    message could not be sent; the iterator failed; a send failed before
    the iterator was used up. *)
Inductive Relayed (pending : list genai.GenerateContentResponse) (stop : error)
  : Res unit -> list Event -> Prop :=
| relayed_complete :
    advisor.endOfStream stop = true ->
    Relayed pending stop (Ok tt)
      (sends (generated pending) ++ [StreamSend advisor.completion])
| relayed_completion_lost cause :
    advisor.endOfStream stop = true ->
    Relayed pending stop (Err cause)
      (sends (generated pending) ++ [StreamSend advisor.completion])
| relayed_generation_failed :
    advisor.endOfStream stop = false ->
    Relayed pending stop (Err ("streaming failed: " +:+ stop))
      (sends (generated pending))
| relayed_send_failed done cause :
    done `prefix_of` generated pending ->
    Relayed pending stop (Err ("failed to send chunk: " +:+ cause)) (sends done).
End shape.

(** ** More of what a run looks like *)

Module trace.
Import world.

(** The labels under which [advisor_requests_total] was incremented, in
    order. *)
Definition advisorOutcomes (evs : list Event) : list string :=
  omap
    (fun ev =>
       match ev with
       | CounterInc name label =>
           if String.eqb name advisor.advisorRequests then Some label else None
       | _ => None
       end)
    evs.

(** [Accepted env h evs]: [evs] is a run of sends, made one after the
    other from the history [h], and the sink accepted each of them. *)
Inductive Accepted (env : Env) : History -> list Event -> Prop :=
| accepted_none h : Accepted env h []
| accepted_one h msg evs :
    stream_send env h msg = None ->
    Accepted env (h ++ [StreamSend msg]) evs ->
    Accepted env h (StreamSend msg :: evs).

(** [UntilRefused env h evs refused]: [evs] is a run of sends the sink
    accepted, followed, when [refused] is [Some (msg, cause)], by the send
    of [msg] that the sink refused with [cause], and by nothing else. *)
Inductive UntilRefused (env : Env) (h : History)
  : list Event -> option (advisorpb.StreamAdviceResponse * error) -> Prop :=
| all_accepted evs :
    Accepted env h evs ->
    UntilRefused env h evs None
| last_refused evs msg cause :
    Accepted env h evs ->
    stream_send env (h ++ evs) msg = Some cause ->
    UntilRefused env h (evs ++ [StreamSend msg]) (Some (msg, cause)).

(** A loop of sends of text chunks, run from [h], by its result: every
    send was accepted; or one was refused, and it is the last. *)
Definition sendsOutcome (env : Env) (h : History) (r : Res unit) (evs : list Event) : Prop :=
  match r with
  | Ok _ => Accepted env h evs
  | Err e =>
      exists msg cause,
        UntilRefused env h evs (Some (msg, cause))
        /\ advisorpb.IsComplete msg = false
        /\ e = "failed to send chunk: " +:+ cause
  end.

(** The loop over the iterator, run from [h], by its result. *)
Definition relayOutcome (env : Env) (h : History) (stop : error)
    (r : Res unit) (evs : list Event) : Prop :=
  match r with
  | Ok _ => Accepted env h evs
  | Err e =>
      (Accepted env h evs /\ e = "streaming failed: " +:+ stop)
      \/ (exists msg cause,
            UntilRefused env h evs (Some (msg, cause))
            /\ e = if advisorpb.IsComplete msg then cause
                   else "failed to send chunk: " +:+ cause)
  end.

(** The bytes [url.QueryEscape] can produce. *)
Definition escaped (c : ascii) : bool :=
  url.unreserved c || Ascii.eqb c "+"%char || Ascii.eqb c "%"%char.

End trace.

(** ** cmd/server *)

Module servermain.
Import world.

(** How [main] ends, as far as it is followed here: up to the call of
    [s.Serve]. The goroutine that serves the metrics is left out. *)
Inductive Exit :=
| Fatal (msg : string)
| Panic (msg : string)
| Serving.

(** [s[:n]] on a string: the first [n] bytes, or a panic when there are
    fewer. *)
Definition slicePrefix (s : string) (n : nat) : option string :=
  if (n <=? String.length s)%nat then Some (String.substring 0 n s) else None.

(** [main], given what [godotenv.Load], [os.Getenv("GEMINI_API_KEY")],
    [net.Listen] and [advisor.NewAdvisorService] return: the lines logged
    and how it ends. *)
Definition main (dotenv : option error) (geminiAPIKey : string)
    (listen : option error) (newClient : option error) : list string * Exit :=
  let noted :=
    match dotenv with
    | Some _ => ["No .env file found, using system environment variables"]
    | None => []
    end in
  if String.eqb geminiAPIKey "" then
    (noted ++ ["GEMINI_API_KEY not set"], Fatal "GEMINI_API_KEY not set")
  else
    match slicePrefix geminiAPIKey 10 with
    | None =>
        (noted,
         Panic ("runtime error: slice bounds out of range [:10] with length "
                +:+ fmt.d (Z.of_nat (String.length geminiAPIKey))))
    | Some shown =>
        let loaded := noted ++ ["Loaded GEMINI_API_KEY: " +:+ shown +:+ "..."] in
        match listen with
        | Some err =>
            (loaded ++ ["Listen failed: " +:+ err], Fatal ("Listen failed: " +:+ err))
        | None =>
            match newClient with
            | Some err =>
                let msg := "Advisor service failed: failed to create Gemini client: " +:+ err in
                (loaded ++ [msg], Fatal msg)
            | None => (loaded ++ ["gRPC server on :8080"], Serving)
            end
        end
    end.

End servermain.

(** ** cmd/cli *)

Module cli.
Import world.

Definition serverAddr : string := "localhost:8082".

Definition availableCities : gmap string (float * float) :=
  list_to_map
    [ ("New York", (40.7128, -74.0060)%float);
      ("London", (51.5074, -0.1278)%float);
      ("Tokyo", (35.6762, 139.6503)%float);
      ("Paris", (48.8566, 2.3522)%float);
      ("Los Angeles", (34.0522, -118.2437)%float);
      ("Chicago", (41.8781, -87.6298)%float);
      ("Sydney", (-33.8688, 151.2093)%float);
      ("Berlin", (52.5200, 13.4050)%float);
      ("Toronto", (43.6532, -79.3832)%float);
      ("Mumbai", (19.0760, 72.8777)%float);
      ("Dubai", (25.2048, 55.2708)%float);
      ("Singapore", (1.3521, 103.8198)%float);
      ("San Francisco", (37.7749, -122.4194)%float);
      ("Miami", (25.7617, -80.1918)%float);
      ("Barcelona", (41.3851, 2.1734)%float) ].

Inductive Colour := Red | Yellow | Green | HiGreen | HiYellow | HiCyan | Cyan | HiBlue.

(** What the CLI does that can be seen from outside: a line in a colour
    ([color.Red] and the like), text on standard output ([fmt.Print],
    [fmt.Printf], [fmt.Println], as written), and what it asks of the
    server. *)
Inductive Action :=
| Say (colour : Colour) (text : string)
| Print (text : string)
| Dial (addr : string)
| CallGetCurrentWeather (req : weatherpb.WeatherRequest)
| CallGetAdvice (req : advisorpb.AdvisorRequest)
| CallStreamAdvice (req : advisorpb.AdvisorRequest).

(** How [stream.Recv] ends once the messages are used up: [io.EOF], or
    another error. *)
Inductive RecvEnd :=
| EOF
| Failed (err : error).

(** The client side of a stream: the messages [Recv] returns one by one,
    then how it ends. *)
Record ClientStream := {
  incoming : list advisorpb.StreamAdviceResponse;
  ending : RecvEnd
}.

(** The server as the CLI meets it. *)
Record Server := {
  dial : option error;
  GetCurrentWeather : weatherpb.WeatherRequest -> Res weatherpb.WeatherResponse;
  GetAdvice : advisorpb.AdvisorRequest -> Res advisorpb.AdvisorResponse;
  StreamAdvice : advisorpb.AdvisorRequest -> Res ClientStream
}.

(** [strings.Repeat(s, count)] *)
Fixpoint Repeat (s : string) (count : nat) : string :=
  match count with
  | O => ""
  | S n => s +:+ Repeat s n
  end.

Definition LF : string := advisor.LF.

Definition getWeather (srv : Server) (cityName : string) : list Action :=
  match availableCities !! cityName with
  | None =>
      [Say Red ("City '" +:+ cityName
                +:+ "' not found! Use 'weather-advisor cities' to see available cities.")]
  | Some coords =>
      Say HiYellow ("Getting weather for " +:+ cityName +:+ "...")
      :: Dial serverAddr
      :: match dial srv with
         | Some err => [Say Red ("Connection failed: " +:+ err)]
         | None =>
             let req := {| weatherpb.Latitude := coords.1; weatherpb.Longitude := coords.2 |} in
             CallGetCurrentWeather req
             :: match GetCurrentWeather srv req with
                | Err err => [Say Red ("Weather request failed: " +:+ err)]
                | Ok resp =>
                    [ Say HiGreen (LF +:+ "Weather Report for " +:+ cityName);
                      Say Green (Repeat "─" 40);
                      Print ("Temperature: " +:+ fmt.f 1 (weatherpb.Temperature resp)
                             +:+ advisor.degree +:+ "C (feels like "
                             +:+ fmt.f 1 (weatherpb.FeelsLike resp)
                             +:+ advisor.degree +:+ "C)" +:+ LF);
                      Print ("Condition: " +:+ weatherpb.Description resp +:+ LF);
                      Print ("Humidity: " +:+ fmt.d (weatherpb.Humidity resp) +:+ "%" +:+ LF);
                      Print ("Wind: " +:+ fmt.f 1 (weatherpb.WindSpeed resp) +:+ " m/s at "
                             +:+ fmt.d (weatherpb.WindDeg resp) +:+ advisor.degree +:+ LF);
                      Print ("Pressure: " +:+ fmt.d (weatherpb.Pressure resp) +:+ " hPa" +:+ LF);
                      Say Green (Repeat "─" 40) ]
                end
         end
  end.

(** The loop of [getAdvice] that validates the cities: the first city
    that is not in the table, or the request data for all of them. *)
Fixpoint validate (cities : list string) (cityData : list advisorpb.CityData)
  : string + list advisorpb.CityData :=
  match cities with
  | [] => inr cityData
  | city :: rest =>
      match availableCities !! city with
      | None => inl city
      | Some _ =>
          validate rest
            (cityData ++ [{| advisorpb.Location := city; advisorpb.State := "";
                             advisorpb.Country := "" |}])
      end
  end.

Definition getNormalAdvice (srv : Server) (req : advisorpb.AdvisorRequest)
    (cities : list string) : list Action :=
  Say HiYellow ("🤖 Getting AI advice for: " +:+ strings.Join cities ", ")
  :: CallGetAdvice req
  :: match GetAdvice srv req with
     | Err err => [Say Red ("❌ Advice request failed: " +:+ err)]
     | Ok resp =>
         [ Say HiGreen (LF +:+ "🎯 AI Weather Advice");
           Say Green (Repeat "═" 60);
           Print (advisorpb.Advice resp +:+ LF);
           Say Green (Repeat "═" 60) ]
     end.

(** The errors of [Recv] that the streaming loop leaves without a word. *)
Definition quietEnd (err : error) : bool :=
  strings.Contains err "context canceled"
  || strings.Contains err "connection is closing"
  || strings.Contains err "streaming failed".

(** [for { resp, err := stream.Recv() ... }]: what is printed, and whether
    the loop was left by [break] ([true]) or the function returned
    ([false]). *)
Fixpoint receive (incoming : list advisorpb.StreamAdviceResponse) (ending : RecvEnd)
  : list Action * bool :=
  match incoming with
  | [] =>
      match ending with
      | EOF => ([], true)
      | Failed err =>
          if quietEnd err then ([], true)
          else ([Say Red ("❌ Stream error: " +:+ err)], false)
      end
  | resp :: rest =>
      if advisorpb.IsComplete resp then ([], true)
      else
        let '(printed, finished) := receive rest ending in
        (Print (advisorpb.Chunk resp) :: printed, finished)
  end.

Definition getStreamingAdvice (srv : Server) (req : advisorpb.AdvisorRequest)
    (cities : list string) : list Action :=
  Say HiYellow ("📡 Streaming AI advice for: " +:+ strings.Join cities ", ")
  :: CallStreamAdvice req
  :: match StreamAdvice srv req with
     | Err err => [Say Red ("❌ Streaming failed: " +:+ err)]
     | Ok stream =>
         let '(printed, finished) := receive (incoming stream) (ending stream) in
         [ Say HiGreen (LF +:+ "🎯 AI Weather Advice (Streaming)");
           Say Green (Repeat "═" 60) ]
         ++ printed
         ++ (if finished then
               [ Say Green (LF +:+ Repeat "═" 60); Say HiGreen "✅ Advice complete!" ]
             else [])
     end.

Definition getAdvice (srv : Server) (cities : list string) (stream : bool) : list Action :=
  match validate cities [] with
  | inl city => [Say Red ("❌ City '" +:+ city +:+ "' not found!")]
  | inr cityData =>
      Dial serverAddr
      :: match dial srv with
         | Some err => [Say Red ("❌ Connection failed: " +:+ err)]
         | None =>
             let req := {| advisorpb.Cities := cityData |} in
             if stream then getStreamingAdvice srv req cities
             else getNormalAdvice srv req cities
         end
  end.

(** The messages the streaming loop prints: those before the first one
    marked complete. *)
Fixpoint beforeCompletion (incoming : list advisorpb.StreamAdviceResponse)
  : list advisorpb.StreamAdviceResponse :=
  match incoming with
  | [] => []
  | resp :: rest => if advisorpb.IsComplete resp then [] else resp :: beforeCompletion rest
  end.

(** The stream holds a completion message, or ends with [io.EOF], or
    ends with an error the loop leaves without a word. *)
Definition endsQuietly (stream : ClientStream) : bool :=
  existsb advisorpb.IsComplete (incoming stream)
  || match ending stream with
     | EOF => true
     | Failed err => quietEnd err
     end.

(** [city] is one of the cities of the table. *)
Definition known (city : string) : Prop := is_Some (availableCities !! city).

(** The request data [getAdvice] makes of a city name. *)
Definition named (city : string) : advisorpb.CityData :=
  {| advisorpb.Location := city; advisorpb.State := ""; advisorpb.Country := "" |}.

(** The loop prints the text of a message as it is. *)
Definition shows (resp : advisorpb.StreamAdviceResponse) : Action :=
  Print (advisorpb.Chunk resp).

(** What the loop says of an error it does not leave without a word. *)
Definition complaint (ending : RecvEnd) : list Action :=
  match ending with
  | EOF => []
  | Failed err => [Say Red ("❌ Stream error: " +:+ err)]
  end.

(** The text written to standard output, put together. *)
Definition printed (actions : list Action) : string :=
  shape.concatenated
    (flat_map (fun a => match a with Print text => [text] | _ => [] end) actions).

Definition said (colour : Colour) (text : string) (actions : list Action) : Prop :=
  In (Say colour text) actions.

Definition calls (a : Action) : bool :=
  match a with
  | Dial _ | CallGetCurrentWeather _ | CallGetAdvice _ | CallStreamAdvice _ => true
  | _ => false
  end.

End cli.

(** ** cmd/stream-client *)

Module streamclient.
Import world.

Inductive Action :=
| Println (text : string)
| Print (text : string)
| Dial (addr : string)
| CallStreamAdvice (req : advisorpb.AdvisorRequest)
| LogFatal (err : error).

Definition request : advisorpb.AdvisorRequest :=
  {| advisorpb.Cities :=
       [ {| advisorpb.Location := "New York"; advisorpb.State := ""; advisorpb.Country := "" |};
         {| advisorpb.Location := "London"; advisorpb.State := ""; advisorpb.Country := "" |} ] |}.

(** The receiving loop of [main]: what it does, and whether [main] goes
    on after it ([false] after [log.Fatal]). *)
Fixpoint receive (incoming : list advisorpb.StreamAdviceResponse) (ending : cli.RecvEnd)
  : list Action * bool :=
  match incoming with
  | [] =>
      match ending with
      | cli.EOF => ([], true)
      | cli.Failed err => ([LogFatal err], false)
      end
  | resp :: rest =>
      if advisorpb.IsComplete resp then
        ([Println (advisor.LF +:+ "Advice complete!")], true)
      else
        let '(done, alive) := receive rest ending in
        (Print (advisorpb.Chunk resp) :: done, alive)
  end.

Definition main (srv : cli.Server) : list Action :=
  Dial "localhost:8080"
  :: match cli.dial srv with
     | Some err => [LogFatal err]
     | None =>
         Println "Getting weather advice (streaming)..."
         :: Println (cli.Repeat "=" 50)
         :: CallStreamAdvice request
         :: match cli.StreamAdvice srv request with
            | Err err => [LogFatal err]
            | Ok stream =>
                let '(done, alive) := receive (cli.incoming stream) (cli.ending stream) in
                done ++ (if alive then [Println (advisor.LF +:+ cli.Repeat "=" 50)] else [])
            end
     end.

End streamclient.

(** ** The server seen through gRPC

    A handler's messages reach the client in the order sent; when the
    handler returns [nil] the client's [Recv] ends with [io.EOF], and when
    it returns an error the client gets a status error whose message
    carries the handler's. *)

Module wire.
Import world.

(** The message of the status error gRPC makes of a handler's error. *)
Definition statusError (err : error) : error :=
  "rpc error: code = Unknown desc = " +:+ err.

Definition unary {A} (r : Res A) : Res A :=
  match r with
  | Ok a => Ok a
  | Err err => Err (statusError err)
  end.

(** The messages of [evs], emitted from the history [h], that the sink
    accepted: those are the ones the client receives. *)
Fixpoint delivered (env : Env) (h : History) (evs : list Event)
  : list advisorpb.StreamAdviceResponse :=
  match evs with
  | [] => []
  | ev :: rest =>
      match ev with
      | StreamSend msg =>
          match stream_send env h msg with
          | None => msg :: delivered env (h ++ [ev]) rest
          | Some _ => delivered env (h ++ [ev]) rest
          end
      | _ => delivered env (h ++ [ev]) rest
      end
  end.

(** The sink accepts every message: the client stays connected. *)
Definition healthy (env : Env) : Prop :=
  forall h msg, stream_send env h msg = None.

Definition streamed (env : Env) (h : History) (outcome : Res unit * list Event)
  : cli.ClientStream :=
  {| cli.incoming := delivered env h outcome.2;
     cli.ending :=
       match outcome.1 with
       | Ok _ => cli.EOF
       | Err err => cli.Failed (statusError err)
       end |}.

(** The server of [cmd/server] in the world [env], each call starting
    from the history [h], behind a connection that dials as [dialled]. *)
Definition served (env : Env) (h : History) (dialled : option error) : cli.Server :=
  {| cli.dial := dialled;
     cli.GetCurrentWeather := fun req => unary (run (weather.GetCurrentWeather env req) h).1;
     cli.GetAdvice := fun req => unary (run (advisor.GetAdvice env (server env) req) h).1;
     cli.StreamAdvice :=
       fun req => Ok (streamed env h (run (advisor.StreamAdvice env (server env) req) h)) |}.

End wire.

(** * Properties *)

Import world shape.

(** ** Running computations *)

Ltac unfold_run :=
  unfold run, defer, bind, call, emit, ret in *.

Lemma run_bind {A B} (m : M A) (k : A -> M B) (h : History) :
  run (bind m k) h =
    (let '(a, evs) := run m h in
     let '(b, evs') := run (k a) (h ++ evs) in
     (b, evs ++ evs')).
Proof. reflexivity. Qed.

Lemma run_defer {A} (ev : Event) (body : M A) (h : History) :
  run (defer ev body) h = ((run body h).1, (run body h).2 ++ [ev]).
Proof. unfold run, defer. destruct (body h); reflexivity. Qed.

(** ** The weather service *)

(** What a successful fetch looked like from the outside, and what it
    returned. *)
Lemma GetCurrentWeather_ok env req h w evs :
  run (weather.GetCurrentWeather env req) h = (Ok w, evs) ->
  let url := weather.forecastURL (weatherpb.Latitude req) (weatherpb.Longitude req) in
  exists resp data,
    http_get env h url = inr resp
    /\ http.StatusCode resp = http.StatusOK
    /\ decode_weather env (http.Body resp) = inr data
    /\ evs = [HttpGet url; TimeNow; CounterInc weather.weatherRequests "success";
              ObserveDuration weather.weatherDuration]
    /\ w = {| weatherpb.Location :=
                weather.locationLabel (weatherpb.Latitude req) (weatherpb.Longitude req);
              weatherpb.Temperature := openmeteo.Temperature (openmeteo.Current data);
              weatherpb.FeelsLike := openmeteo.Temperature (openmeteo.Current data);
              weatherpb.TempMin := openmeteo.Temperature (openmeteo.Current data);
              weatherpb.TempMax := openmeteo.Temperature (openmeteo.Current data);
              weatherpb.Pressure := 1013;
              weatherpb.Humidity := openmeteo.Humidity (openmeteo.Current data);
              weatherpb.WindSpeed := openmeteo.WindSpeed (openmeteo.Current data);
              weatherpb.WindDeg := openmeteo.WindDir (openmeteo.Current data);
              weatherpb.Timestamp := time_now_unix env (h ++ [HttpGet url]);
              weatherpb.Description :=
                weather.getWeatherDescription
                  (openmeteo.WeatherCode (openmeteo.Current data)) |}.
Proof.
  intros H url. unfold weather.GetCurrentWeather in H. unfold_run.
  fold url in H.
  destruct (http_get env h url) as [err|resp] eqn:Hget; [discriminate|].
  destruct (http.StatusCode resp =? http.StatusOK) eqn:Hst; simpl in H; [|discriminate].
  destruct (decode_weather env (http.Body resp)) as [err|data] eqn:Hdec; [discriminate|].
  simpl in H. injection H as Hw Hevs. exists resp, data.
  apply Z.eqb_eq in Hst. repeat split; auto.
Qed.



(** C10. In every successful response the feels-like, minimum and maximum
    temperatures are the current temperature and the pressure is 1013. *)
Theorem response_placeholders env req h w evs :
  run (weather.GetCurrentWeather env req) h = (Ok w, evs) ->
  weatherpb.FeelsLike w = weatherpb.Temperature w
  /\ weatherpb.TempMin w = weatherpb.Temperature w
  /\ weatherpb.TempMax w = weatherpb.Temperature w
  /\ weatherpb.Pressure w = 1013.
Proof.
  intros H. apply GetCurrentWeather_ok in H as (resp & data & _ & _ & _ & _ & ->).
  repeat split.
Qed.

Lemma response_placeholders_witness :
  exists w evs,
    run (weather.GetCurrentWeather demo.usual
           {| weatherpb.Latitude := 48.8566%float; weatherpb.Longitude := 2.3522%float |}) []
      = (Ok w, evs)
    /\ weatherpb.Temperature w = 18.5%float
    /\ weatherpb.FeelsLike w = weatherpb.Temperature w
    /\ weatherpb.TempMin w = weatherpb.Temperature w
    /\ weatherpb.TempMax w = weatherpb.Temperature w
    /\ weatherpb.Pressure w = 1013.
Proof.
  eexists _, _. split; [vm_compute; reflexivity|]. split; [reflexivity|].
  eapply (response_placeholders demo.usual
            {| weatherpb.Latitude := 48.8566%float; weatherpb.Longitude := 2.3522%float |}
            []).
  vm_compute. reflexivity.
Defined.

(** ** The coordinate resolver *)

Lemma curated_names name :
  is_Some (advisor.cityCoords !! name) <-> name ∈ advisor.hintNames.
Proof.
  rewrite <- elem_of_dom. unfold advisor.cityCoords.
  rewrite dom_list_to_map_L, elem_of_list_to_set. reflexivity.
Qed.

Lemma upstream_is_not_notfound e :
  condition.UpstreamUnavailable e -> ~ condition.NotFound e.
Proof.
  intros [[cause ->]|[status [_ ->]]] [location Hloc]; discriminate Hloc.
Qed.

(** Whatever the provider answers, resolving a name outside the table
    costs exactly one request, to the geocoding URL of that name. *)
Lemma geocodeCity_remote_events env city apiKey h :
  advisor.cityCoords !! advisorpb.Location city = None ->
  (run (advisor.geocodeCity env city apiKey) h).2
    = [HttpGet (advisor.geocodeURL (advisorpb.Location city))].
Proof.
  intros Hnone. unfold advisor.geocodeCity. rewrite Hnone. unfold_run.
  destruct (http_get env h _) as [err|resp]; [reflexivity|].
  destruct (negb _); [reflexivity|].
  destruct (decode_geocode env _) as [err|found]; [reflexivity|].
  destruct (openmeteo.Results found); reflexivity.
Qed.

(** C4. A name of the curated table resolves to the table's coordinate
    and emits nothing: no request leaves the process. "New York" gives
    (40.7128, -74.0060); the match is exact, so "new york" goes to the
    geocoding provider. *)
Theorem curated_city_resolves_locally env city apiKey h coords :
  advisor.cityCoords !! advisorpb.Location city = Some coords ->
  run (advisor.geocodeCity env city apiKey) h = (Ok coords, [])
  /\ (forall state country,
        run (advisor.geocodeCity env
               {| advisorpb.Location := "New York"; advisorpb.State := state;
                  advisorpb.Country := country |} apiKey) h
          = (Ok (40.7128, -74.0060)%float, []))
  /\ (forall state country,
        (run (advisor.geocodeCity env
                {| advisorpb.Location := "new york"; advisorpb.State := state;
                   advisorpb.Country := country |} apiKey) h).2
          = [HttpGet (advisor.geocodeURL "new york")]).
Proof.
  intros Hin. split; [|split].
  - unfold advisor.geocodeCity. rewrite Hin. destruct coords; reflexivity.
  - intros state country. reflexivity.
  - intros state country. apply geocodeCity_remote_events. reflexivity.
Qed.

Lemma curated_city_resolves_locally_witness :
  advisor.cityCoords !! "Sydney" = Some (-33.8688, 151.2093)%float
  /\ run (advisor.geocodeCity demo.usual (demo.city "Sydney") "") [HttpGet "earlier"]
       = (Ok (-33.8688, 151.2093)%float, []).
Proof.
  split; [reflexivity|].
  exact (proj1 (curated_city_resolves_locally demo.usual (demo.city "Sydney") ""
                  [HttpGet "earlier"] _ eq_refl)).
Defined.

(** C5. For a name outside the curated table: when the geocoding provider
    answers 200 with a body that decodes to zero results, resolution fails
    with NotFound, and the message lists the names of the curated table;
    when the request fails in transport, or the status is not 200,
    resolution fails with UpstreamUnavailable, which is never NotFound. *)
Theorem uncurated_city_failures env city apiKey h :
  advisor.cityCoords !! advisorpb.Location city = None ->
  let location := advisorpb.Location city in
  let url := advisor.geocodeURL location in
  (forall resp found,
      http_get env h url = inr resp ->
      http.StatusCode resp = http.StatusOK ->
      decode_geocode env (http.Body resp) = inr found ->
      openmeteo.Results found = [] ->
      exists e,
        run (advisor.geocodeCity env city apiKey) h = (Err e, [HttpGet url])
        /\ condition.NotFound e
        /\ e = "location not found: " +:+ location
               +:+ " (try: " +:+ strings.Join advisor.hintNames ", " +:+ ")"
        /\ (forall name, is_Some (advisor.cityCoords !! name) <-> name ∈ advisor.hintNames))
  /\ (forall cause,
        http_get env h url = inl cause ->
        exists e,
          run (advisor.geocodeCity env city apiKey) h = (Err e, [HttpGet url])
          /\ e = "geocoding failed: " +:+ cause
          /\ condition.UpstreamUnavailable e /\ ~ condition.NotFound e)
  /\ (forall resp,
        http_get env h url = inr resp ->
        http.StatusCode resp <> http.StatusOK ->
        exists e,
          run (advisor.geocodeCity env city apiKey) h = (Err e, [HttpGet url])
          /\ e = "geocoding API returned status " +:+ fmt.d (http.StatusCode resp)
          /\ condition.UpstreamUnavailable e /\ ~ condition.NotFound e).
Proof.
  intros Hnone location url. split; [|split].
  - intros resp found Hget Hst Hdec Hres. eexists. split; [|split; [|split]].
    + unfold advisor.geocodeCity. rewrite Hnone. unfold_run.
      fold location. fold url. rewrite Hget, Hst. simpl. rewrite Hdec, Hres. reflexivity.
    + exists location. reflexivity.
    + reflexivity.
    + apply curated_names.
  - intros cause Hget.
    assert (condition.UpstreamUnavailable ("geocoding failed: " +:+ cause)) as Hup
      by (left; exists cause; reflexivity).
    eexists. split; [|split; [reflexivity|split; [exact Hup|]]].
    + unfold advisor.geocodeCity. rewrite Hnone. unfold_run.
      fold location. fold url. rewrite Hget. reflexivity.
    + apply upstream_is_not_notfound, Hup.
  - intros resp Hget Hst.
    assert (condition.UpstreamUnavailable
              ("geocoding API returned status " +:+ fmt.d (http.StatusCode resp))) as Hup
      by (right; exists (http.StatusCode resp); split; [exact Hst|reflexivity]).
    eexists. split; [|split; [reflexivity|split; [exact Hup|]]].
    + unfold advisor.geocodeCity. rewrite Hnone. unfold_run.
      fold location. fold url. rewrite Hget.
      apply Z.eqb_neq in Hst. rewrite Hst. reflexivity.
    + apply upstream_is_not_notfound, Hup.
Qed.

Lemma uncurated_city_failures_witness :
  (exists e,
      run (advisor.geocodeCity demo.usual (demo.city "Nowhereville") "") []
        = (Err e, [HttpGet (advisor.geocodeURL "Nowhereville")])
      /\ condition.NotFound e
      /\ e = "location not found: Nowhereville (try: New York, London, Tokyo, Paris, Los Angeles, Chicago, Sydney)")
  /\ (exists e,
        run (advisor.geocodeCity demo.usual (demo.city "Atlantis") "") []
          = (Err e, [HttpGet (advisor.geocodeURL "Atlantis")])
        /\ e = "geocoding failed: dial tcp: i/o timeout"
        /\ condition.UpstreamUnavailable e)
  /\ (exists e,
        run (advisor.geocodeCity demo.usual (demo.city "Cibola") "") []
          = (Err e, [HttpGet (advisor.geocodeURL "Cibola")])
        /\ e = "geocoding API returned status 503"
        /\ condition.UpstreamUnavailable e).
Proof.
  split; [|split].
  - destruct (uncurated_city_failures demo.usual (demo.city "Nowhereville") "" [] eq_refl)
      as (Hzero & _ & _).
    destruct (Hzero {| http.StatusCode := 200; http.Body := "results: none" |}
                {| openmeteo.Results := [] |} eq_refl eq_refl eq_refl eq_refl)
      as (e & Hrun & Hnf & He & _).
    exists e. split; [exact Hrun|]. split; [exact Hnf|]. exact He.
  - destruct (uncurated_city_failures demo.usual (demo.city "Atlantis") "" [] eq_refl)
      as (_ & Htransport & _).
    destruct (Htransport "dial tcp: i/o timeout" eq_refl) as (e & Hrun & He & Hup & _).
    exists e. split; [exact Hrun|]. split; [exact He|]. exact Hup.
  - destruct (uncurated_city_failures demo.usual (demo.city "Cibola") "" [] eq_refl)
      as (_ & _ & Hstatus).
    destruct (Hstatus {| http.StatusCode := 503; http.Body := "" |} eq_refl
                ltac:(discriminate))
      as (e & Hrun & He & Hup & _).
    exists e. split; [exact Hrun|]. split; [exact He|]. exact Hup.
Defined.

(** ** The loop over the cities *)

(** One turn of the loop. *)
Lemma gatherWeather_cons env s city rest acc h :
  run (advisor.gatherWeather env s (city :: rest) acc) h =
    (let '(located, revs) := run (advisor.geocodeCity env city "") h in
     match located with
     | Err err =>
         (Err ("geocoding failed for " +:+ advisorpb.Location city +:+ ": " +:+ err),
          revs ++ [CounterInc advisor.advisorRequests "error"])
     | Ok (lat, lon) =>
         let '(fetched, wevs) :=
           run (advisor.weatherSvc s
                  {| weatherpb.Latitude := lat; weatherpb.Longitude := lon |}) (h ++ revs) in
         match fetched with
         | Err err =>
             (Err ("weather request failed for " +:+ advisorpb.Location city
                   +:+ ": " +:+ err),
              revs ++ wevs ++ [CounterInc advisor.advisorRequests "error"])
         | Ok w =>
             let '(r, evs) :=
               run (advisor.gatherWeather env s rest (acc ++ [advisor.weatherInfo w]))
                 (h ++ revs ++ wevs) in
             (r, revs ++ wevs ++ evs)
         end
     end).
Proof.
  simpl. unfold_run.
  destruct (advisor.geocodeCity env city "" h) as [[[lat lon]|err] revs]; [|reflexivity].
  destruct (advisor.weatherSvc s _ (h ++ revs)) as [[w|err] wevs].
  - rewrite <- app_assoc.
    destruct (advisor.gatherWeather env s rest _ _) as [r evs]. reflexivity.
  - simpl. reflexivity.
Qed.

(** A prefix of cities that goes through hands its lines and its history
    to the rest of the loop. *)
Lemma gatherWeather_app env s pre cities : forall acc h lines gevs,
  run (advisor.gatherWeather env s pre acc) h = (Ok lines, gevs) ->
  run (advisor.gatherWeather env s (pre ++ cities) acc) h =
    (let '(r, evs) := run (advisor.gatherWeather env s cities lines) (h ++ gevs) in
     (r, gevs ++ evs)).
Proof.
  induction pre as [|city pre IH]; intros acc h lines gevs Hpre.
  - injection Hpre as <- <-. rewrite app_nil_r. simpl.
    destruct (run _ h) as [r evs]. reflexivity.
  - rewrite <- app_comm_cons, gatherWeather_cons. rewrite gatherWeather_cons in Hpre.
    destruct (run (advisor.geocodeCity env city "") h) as [[[lat lon]|err] revs];
      [|discriminate].
    destruct (run (advisor.weatherSvc s _) (h ++ revs)) as [[w|err] wevs]; [|discriminate].
    destruct (run (advisor.gatherWeather env s pre _) (h ++ revs ++ wevs))
      as [r evs] eqn:Hrest.
    injection Hpre as -> <-.
    rewrite (IH _ _ _ _ Hrest).
    replace ((h ++ revs ++ wevs) ++ evs) with (h ++ revs ++ wevs ++ evs)
      by (rewrite !app_assoc; reflexivity).
    destruct (run (advisor.gatherWeather env s cities lines) _) as [r' evs'].
    rewrite !app_assoc. reflexivity.
Qed.

Lemma geocodeCity_resolved env city apiKey h coords revs :
  run (advisor.geocodeCity env city apiKey) h = (Ok coords, revs) ->
  shape.Resolved city revs coords.
Proof.
  intros H. destruct (advisor.cityCoords !! advisorpb.Location city) as [c|] eqn:Hin.
  - unfold advisor.geocodeCity in H. rewrite Hin in H. injection H as <- <-.
    destruct c. constructor. exact Hin.
  - pose proof (geocodeCity_remote_events env city apiKey h Hin) as Hevs.
    rewrite H in Hevs. simpl in Hevs. subst revs. constructor. exact Hin.
Qed.

Lemma GetCurrentWeather_fetched env lat lon h w wevs :
  run (weather.GetCurrentWeather env
         {| weatherpb.Latitude := lat; weatherpb.Longitude := lon |}) h = (Ok w, wevs) ->
  shape.Fetched (lat, lon) wevs w.
Proof.
  intros H. apply GetCurrentWeather_ok in H as (resp & data & _ & _ & _ & -> & ->).
  econstructor; reflexivity.
Qed.

(** With the weather service of the same process, a loop that goes
    through has worked city by city, and added one line per city. *)
Lemma gatherWeather_in_order env cities : forall acc h lines gevs,
  run (advisor.gatherWeather env (server env) cities acc) h = (Ok lines, gevs) ->
  exists new, lines = acc ++ new /\ shape.InOrder cities gevs new.
Proof.
  induction cities as [|city cities IH]; intros acc h lines gevs H.
  - injection H as <- <-. exists []. rewrite app_nil_r. split; [reflexivity|constructor].
  - rewrite gatherWeather_cons in H.
    destruct (run (advisor.geocodeCity env city "") h) as [[[lat lon]|err] revs] eqn:Hgeo;
      [|discriminate].
    destruct (run (advisor.weatherSvc (server env) _) (h ++ revs)) as [[w|err] wevs] eqn:Hw;
      [|discriminate].
    destruct (run (advisor.gatherWeather env (server env) cities _) _)
      as [r evs] eqn:Hrest.
    injection H as -> <-.
    apply IH in Hrest as (new & -> & Hord).
    exists (advisor.weatherInfo w :: new). split.
    + rewrite <- app_assoc. reflexivity.
    + econstructor; [|  |exact Hord].
      * eapply geocodeCity_resolved, Hgeo.
      * eapply GetCurrentWeather_fetched, Hw.
Qed.

Lemma InOrder_length cities evs lines :
  shape.InOrder cities evs lines -> length lines = length cities.
Proof. induction 1; simpl; congruence. Qed.

(** *** What the loop emits *)

Lemma geocodeCity_gathering env city apiKey h :
  Forall (fun ev => shape.gathering ev = true) (run (advisor.geocodeCity env city apiKey) h).2.
Proof.
  destruct (advisor.cityCoords !! advisorpb.Location city) as [c|] eqn:Hin.
  - unfold advisor.geocodeCity. rewrite Hin. constructor.
  - rewrite geocodeCity_remote_events by exact Hin. repeat constructor.
Qed.

Lemma GetCurrentWeather_gathering env req h :
  Forall (fun ev => shape.gathering ev = true) (run (weather.GetCurrentWeather env req) h).2.
Proof.
  unfold weather.GetCurrentWeather. unfold_run.
  destruct (http_get env h _) as [err|resp]; [repeat constructor|].
  destruct (negb _); [repeat constructor|].
  destruct (decode_weather env _) as [err|data]; repeat constructor.
Qed.

Lemma gatherWeather_gathering env cities : forall acc h,
  Forall (fun ev => shape.gathering ev = true)
    (run (advisor.gatherWeather env (server env) cities acc) h).2.
Proof.
  induction cities as [|city cities IH]; intros acc h; [constructor|].
  rewrite gatherWeather_cons.
  pose proof (geocodeCity_gathering env city "" h) as Hg.
  destruct (run (advisor.geocodeCity env city "") h) as [[[lat lon]|err] revs]; simpl in Hg.
  - pose proof (GetCurrentWeather_gathering env
                  {| weatherpb.Latitude := lat; weatherpb.Longitude := lon |} (h ++ revs)) as Hw.
    change (advisor.weatherSvc (server env)) with (weather.GetCurrentWeather env).
    destruct (run (weather.GetCurrentWeather env _) (h ++ revs)) as [[w|err] wevs];
      simpl in Hw.
    + specialize (IH (acc ++ [advisor.weatherInfo w]) (h ++ revs ++ wevs)).
      destruct (run (advisor.gatherWeather env (server env) cities _) _) as [r evs].
      simpl in *. rewrite !Forall_app. auto.
    + simpl. rewrite !Forall_app. repeat split; auto.
  - simpl. rewrite Forall_app. split; auto.
Qed.

Lemma gathering_sends_nothing evs :
  Forall (fun ev => shape.gathering ev = true) evs ->
  sent_messages evs = [] /\ Forall (fun ev => is_generation ev = false) evs.
Proof.
  induction 1 as [|ev evs Hev _ [IHs IHg]]; [split; constructor|].
  destruct ev; try discriminate Hev; simpl; split; auto.
Qed.

(** ** The two calls *)

Lemma GetAdvice_run env s req h :
  run (advisor.GetAdvice env s req) h =
    (let '(gathered, gevs) := run (advisor.gatherWeather env s (advisorpb.Cities req) []) h in
     match gathered with
     | Err err => (Err err, gevs ++ [ObserveDuration advisor.advisorDuration])
     | Ok weatherData =>
         let '(generated, evs) := run (advisor.generateAdvice env weatherData) (h ++ gevs) in
         match generated with
         | Err err =>
             (Err ("advice generation failed: " +:+ err),
              gevs ++ evs ++ [CounterInc advisor.advisorRequests "error";
                              ObserveDuration advisor.advisorDuration])
         | Ok advice =>
             (Ok {| advisorpb.Advice := advice |},
              gevs ++ evs ++ [CounterInc advisor.advisorRequests "success";
                              ObserveDuration advisor.advisorDuration])
         end
     end).
Proof.
  unfold advisor.GetAdvice. unfold_run.
  destruct (advisor.gatherWeather env s _ [] h) as [[weatherData|err] gevs].
  - destruct (advisor.generateAdvice env weatherData (h ++ gevs)) as [[advice|err] evs];
      simpl; rewrite <- !app_assoc; reflexivity.
  - simpl. rewrite app_nil_r. reflexivity.
Qed.

Lemma StreamAdvice_run env s req h :
  run (advisor.StreamAdvice env s req) h =
    (let '(gathered, gevs) := run (advisor.gatherWeather env s (advisorpb.Cities req) []) h in
     match gathered with
     | Err err => (Err err, gevs ++ [ObserveDuration advisor.advisorDuration])
     | Ok weatherData =>
         let '(r, evs) := run (advisor.streamAdviceGeneration env weatherData) (h ++ gevs) in
         match r with
         | Err err =>
             (Err ("advice generation failed: " +:+ err),
              gevs ++ evs ++ [CounterInc advisor.advisorRequests "error";
                              ObserveDuration advisor.advisorDuration])
         | Ok _ =>
             (Ok tt,
              gevs ++ evs ++ [CounterInc advisor.advisorRequests "success";
                              ObserveDuration advisor.advisorDuration])
         end
     end).
Proof.
  unfold advisor.StreamAdvice. unfold_run.
  destruct (advisor.gatherWeather env s _ [] h) as [[weatherData|err] gevs].
  - destruct (advisor.streamAdviceGeneration env weatherData (h ++ gevs)) as [[u|err] evs];
      simpl; rewrite <- !app_assoc; reflexivity.
  - simpl. rewrite app_nil_r. reflexivity.
Qed.

Lemma generateAdvice_events env weatherData h :
  (run (advisor.generateAdvice env weatherData) h).2
    = [GenerateContent advisor.modelName (advisor.advicePrompt weatherData)].
Proof.
  unfold advisor.generateAdvice. unfold_run.
  destruct (generate_content env h _ _) as [err|resp]; [reflexivity|].
  destruct (genai.Candidates resp); reflexivity.
Qed.

(** A city that fails ends the loop there, whatever follows it. *)
Lemma gatherWeather_fails env city post acc h e fevs :
  shape.CityFails env city h e fevs ->
  run (advisor.gatherWeather env (server env) (city :: post) acc) h
    = (Err e, fevs ++ [CounterInc advisor.advisorRequests "error"]).
Proof.
  intros Hfail. rewrite gatherWeather_cons.
  destruct Hfail as [cause revs Hgeo|lat lon revs cause wevs Hgeo Hw]; rewrite Hgeo.
  - reflexivity.
  - change (advisor.weatherSvc (server env)) with (weather.GetCurrentWeather env).
    rewrite Hw. rewrite <- app_assoc. reflexivity.
Qed.

Lemma CityFails_gathering env city h e fevs :
  shape.CityFails env city h e fevs ->
  Forall (fun ev => shape.gathering ev = true) fevs.
Proof.
  intros [cause revs Hgeo|lat lon revs cause wevs Hgeo Hw].
  - pose proof (geocodeCity_gathering env city "" h) as H. rewrite Hgeo in H. exact H.
  - pose proof (geocodeCity_gathering env city "" h) as H. rewrite Hgeo in H.
    pose proof (GetCurrentWeather_gathering env
                  {| weatherpb.Latitude := lat; weatherpb.Longitude := lon |} (h ++ revs)) as H'.
    rewrite Hw in H'. apply Forall_app. split; assumption.
Qed.

(** C1. When the cities before [city] go through and [city] fails, in
    geocoding or in the weather request, GetAdvice and StreamAdvice both
    fail with an error that names the step and the city. What they emitted
    is the work on the cities before, the failed step, the error counter
    and the timer: no generation is requested, nothing is sent on the
    stream, and no city after [city] is resolved or fetched. *)
Theorem first_failure_aborts env pre city post h lines gevs e fevs :
  run (advisor.gatherWeather env (server env) pre []) h = (Ok lines, gevs) ->
  shape.CityFails env city (h ++ gevs) e fevs ->
  let req := {| advisorpb.Cities := pre ++ city :: post |} in
  let evs := gevs ++ fevs ++ [CounterInc advisor.advisorRequests "error";
                              ObserveDuration advisor.advisorDuration] in
  run (advisor.GetAdvice env (server env) req) h = (Err e, evs)
  /\ run (advisor.StreamAdvice env (server env) req) h = (Err e, evs)
  /\ ((exists cause,
         e = "geocoding failed for " +:+ advisorpb.Location city +:+ ": " +:+ cause)
      \/ (exists cause,
            e = "weather request failed for " +:+ advisorpb.Location city +:+ ": " +:+ cause))
  /\ sent_messages evs = []
  /\ Forall (fun ev => is_generation ev = false) evs
  /\ shape.InOrder pre gevs lines.
Proof.
  intros Hpre Hfail req evs.
  assert (run (advisor.gatherWeather env (server env) (advisorpb.Cities req) []) h
          = (Err e, gevs ++ fevs ++ [CounterInc advisor.advisorRequests "error"])) as Hloop.
  { simpl. rewrite (gatherWeather_app _ _ _ _ _ _ _ _ Hpre).
    rewrite (gatherWeather_fails _ _ _ _ _ _ _ Hfail). reflexivity. }
  assert (Forall (fun ev => shape.gathering ev = true) evs) as Hquiet.
  { unfold evs. rewrite !Forall_app. split; [|split].
    - pose proof (gatherWeather_gathering env pre [] h) as H. rewrite Hpre in H. exact H.
    - eapply CityFails_gathering, Hfail.
    - repeat constructor. }
  apply gathering_sends_nothing in Hquiet as [Hsent Hgen].
  split; [|split; [|split; [|split; [|split]]]].
  - rewrite GetAdvice_run, Hloop. unfold evs. rewrite <- !app_assoc. reflexivity.
  - rewrite StreamAdvice_run, Hloop. unfold evs. rewrite <- !app_assoc. reflexivity.
  - destruct Hfail as [cause ? ?|? ? ? cause ? ? ?]; [left|right]; exists cause; reflexivity.
  - exact Hsent.
  - exact Hgen.
  - apply gatherWeather_in_order in Hpre as (new & -> & Hord). exact Hord.
Qed.

Lemma first_failure_aborts_witness :
  (exists evs,
      let req := {| advisorpb.Cities :=
                      [demo.city "London"] ++ demo.city "Nowhereville" :: [demo.city "Paris"] |} in
      run (advisor.GetAdvice demo.usual (server demo.usual) req) []
        = (Err "geocoding failed for Nowhereville: location not found: Nowhereville (try: New York, London, Tokyo, Paris, Los Angeles, Chicago, Sydney)",
           evs)
      /\ run (advisor.StreamAdvice demo.usual (server demo.usual) req) []
           = (Err "geocoding failed for Nowhereville: location not found: Nowhereville (try: New York, London, Tokyo, Paris, Los Angeles, Chicago, Sydney)",
              evs)
      /\ sent_messages evs = []
      /\ List.filter is_http_get evs
           = [HttpGet (weather.forecastURL 51.5074 (-0.1278));
              HttpGet (advisor.geocodeURL "Nowhereville")])
  /\ (exists evs,
        let req := {| advisorpb.Cities := [] ++ demo.city "Reykjavik" :: [demo.city "Paris"] |} in
        run (advisor.GetAdvice demo.usual (server demo.usual) req) []
          = (Err "weather request failed for Reykjavik: API status: 500", evs)
        /\ run (advisor.StreamAdvice demo.usual (server demo.usual) req) []
             = (Err "weather request failed for Reykjavik: API status: 500", evs)
        /\ sent_messages evs = []
        /\ List.filter is_http_get evs
             = [HttpGet (advisor.geocodeURL "Reykjavik");
                HttpGet (weather.forecastURL 64.1466 (-21.9426))]).
Proof.
  split.
  - edestruct (first_failure_aborts demo.usual [demo.city "London"]
                 (demo.city "Nowhereville") [demo.city "Paris"] [])
      as (Hget & Hstream & _ & Hsent & _);
      [vm_compute; reflexivity
      |eapply shape.in_geocoding; vm_compute; reflexivity
      |].
    eexists. cbv zeta. rewrite Hget, Hstream.
    split; [apply f_equal2; [vm_compute; reflexivity|reflexivity]|].
    split; [apply f_equal2; [vm_compute; reflexivity|reflexivity]|].
    split; [exact Hsent|]. vm_compute. reflexivity.
  - edestruct (first_failure_aborts demo.usual [] (demo.city "Reykjavik")
                 [demo.city "Paris"] [])
      as (Hget & Hstream & _ & Hsent & _);
      [vm_compute; reflexivity
      |eapply shape.in_weather; [vm_compute; reflexivity|vm_compute; reflexivity]
      |].
    eexists. cbv zeta. rewrite Hget, Hstream.
    split; [apply f_equal2; [vm_compute; reflexivity|reflexivity]|].
    split; [apply f_equal2; [vm_compute; reflexivity|reflexivity]|].
    split; [exact Hsent|]. vm_compute. reflexivity.
Defined.

Lemma streamAdviceGeneration_run env weatherData h :
  run (advisor.streamAdviceGeneration env weatherData) h =
    (let prompt := advisor.advicePrompt weatherData in
     let asked := GenerateContentStream advisor.modelName prompt in
     let iter := generate_content_stream env h advisor.modelName prompt in
     let '(r, evs) := run (advisor.relay env (genai.pending iter) (genai.stop iter))
                        (h ++ [asked]) in
     (r, asked :: evs)).
Proof.
  unfold advisor.streamAdviceGeneration. unfold_run.
  destruct (advisor.relay env _ _ _) as [r evs]. reflexivity.
Qed.

(** *** Lines without line feeds *)

Lemma Contains_unfold s sub :
  strings.Contains s sub =
    if strings.HasPrefix s sub then true
    else match s with
         | EmptyString => false
         | String _ s' => strings.Contains s' sub
         end.
Proof. destruct s; reflexivity. Qed.

Lemma Contains_char_cons c x s :
  strings.Contains (String x s) (String c "") = Ascii.eqb c x || strings.Contains s (String c "").
Proof.
  rewrite Contains_unfold. simpl. destruct (Ascii.eqb c x); [|reflexivity].
  destruct s; reflexivity.
Qed.

Lemma Contains_char_app c a b :
  strings.Contains (a +:+ b) (String c "")
  = strings.Contains a (String c "") || strings.Contains b (String c "").
Proof.
  induction a as [|x a IH]; [reflexivity|].
  change (String x a +:+ b) with (String x (a +:+ b)).
  rewrite !Contains_char_cons, IH. apply orb_assoc.
Qed.

Lemma oneLine_app a b : oneLine a -> oneLine b -> oneLine (a +:+ b).
Proof.
  unfold oneLine, advisor.LF. intros Ha Hb. rewrite Contains_char_app, Ha, Hb. reflexivity.
Qed.

Lemma oneLine_digits u : oneLine (NilEmpty.string_of_uint u).
Proof.
  unfold oneLine, advisor.LF.
  induction u; cbn [NilEmpty.string_of_uint]; [reflexivity|..];
    rewrite Contains_char_cons, IHu; reflexivity.
Qed.

Lemma oneLine_uint u : oneLine (NilZero.string_of_uint u).
Proof. destruct u; try apply oneLine_digits. reflexivity. Qed.

Lemma oneLine_d n : oneLine (fmt.d n).
Proof.
  unfold fmt.d, NilZero.string_of_int. destruct (Z.to_int n) as [u|u].
  - apply oneLine_uint.
  - unfold oneLine, advisor.LF. rewrite Contains_char_cons.
    pose proof (oneLine_uint u) as H. unfold oneLine, advisor.LF in H. rewrite H. reflexivity.
Qed.

Lemma oneLine_zeros n : oneLine (fmt.zeros n).
Proof.
  unfold fmt.zeros. induction n as [|n IH]; [reflexivity|].
  simpl. destruct (repeat "0" n) eqn:Hrep; [reflexivity|].
  apply (oneLine_app "0" _); [reflexivity|]. apply (oneLine_app "" _); [reflexivity|exact IH].
Qed.

Lemma oneLine_fixed prec m e : oneLine (fmt.fixed prec m e).
Proof.
  unfold fmt.fixed. cbv zeta. destruct prec; [apply oneLine_d|].
  apply oneLine_app; [apply oneLine_d|]. apply (oneLine_app "." _); [reflexivity|].
  unfold fmt.pad_left_zeros. apply oneLine_app; [apply oneLine_zeros|apply oneLine_d].
Qed.

Lemma oneLine_f prec x : oneLine (fmt.f prec x).
Proof.
  unfold fmt.f. destruct (Prim2SF x) as [s|s| |s m e].
  - apply oneLine_app; [destruct s; reflexivity|].
    destruct prec; [reflexivity|]. apply (oneLine_app "0." _); [reflexivity|].
    apply oneLine_zeros.
  - destruct s; reflexivity.
  - reflexivity.
  - apply oneLine_app; [destruct s; reflexivity|apply oneLine_fixed].
Qed.

Lemma oneLine_description code : oneLine (weather.getWeatherDescription code).
Proof.
  unfold weather.getWeatherDescription.
  destruct (weather.descriptions !! code) as [desc|] eqn:Hin; [|reflexivity].
  assert (map_Forall (fun _ d => strings.Contains d advisor.LF = false) weather.descriptions)
    as Hall.
  { apply map_Forall_to_list. vm_compute. repeat constructor. }
  exact (Hall code desc Hin).
Qed.

Lemma oneLine_weatherInfo coords wevs w : Fetched coords wevs w -> oneLine (advisor.weatherInfo w).
Proof.
  intros [w' code Hlabel Hdesc]. unfold advisor.weatherInfo. rewrite Hlabel, Hdesc.
  unfold weather.locationLabel.
  repeat first
    [ apply oneLine_f | apply oneLine_d | apply oneLine_description
    | apply oneLine_app | reflexivity ].
Qed.

Lemma InOrder_oneLine cities evs lines :
  InOrder cities evs lines -> Forall oneLine lines.
Proof.
  induction 1 as [|city cities coords w revs wevs evs lines _ Hfetch _ IH]; constructor.
  - eapply oneLine_weatherInfo, Hfetch.
  - exact IH.
Qed.

(** C8. When every city of the request goes through, the events of the
    loop are, city by city in the order of the request, the resolution of
    the city and then the fetch at its coordinate; the loop yields one line
    per city in that order; and the request to the generative backend
    comes after all of them, with a prompt that joins those lines by line
    feeds between the fixed opening and closing sentences. No line has a
    line feed in it, so each city takes exactly one row of the prompt. *)
Theorem cities_in_request_order env req h lines gevs :
  run (advisor.gatherWeather env (server env) (advisorpb.Cities req) []) h = (Ok lines, gevs) ->
  shape.InOrder (advisorpb.Cities req) gevs lines
  /\ length lines = length (advisorpb.Cities req)
  /\ Forall oneLine lines
  /\ (exists rest,
        (run (advisor.GetAdvice env (server env) req) h).2
          = gevs ++ GenerateContent advisor.modelName (advisor.advicePrompt lines) :: rest)
  /\ (exists rest,
        (run (advisor.StreamAdvice env (server env) req) h).2
          = gevs ++ GenerateContentStream advisor.modelName (advisor.advicePrompt lines) :: rest)
  /\ advisor.advicePrompt lines
       = "Weather advisor. Based on this data provide practical advice:"
         +:+ advisor.LF +:+ advisor.LF +:+ strings.Join lines advisor.LF
         +:+ advisor.LF +:+ advisor.LF
         +:+ "Include: summary, clothing advice, activity suggestions, warnings. Keep it concise.".
Proof.
  intros Hloop.
  pose proof (gatherWeather_in_order _ _ _ _ _ _ Hloop) as (new & Hnew & Hord).
  simpl in Hnew. subst new.
  split; [exact Hord|]. split; [eapply InOrder_length, Hord|].
  split; [eapply InOrder_oneLine, Hord|].
  split; [|split; [|reflexivity]].
  - rewrite GetAdvice_run, Hloop.
    pose proof (generateAdvice_events env lines (h ++ gevs)) as Hev.
    destruct (run (advisor.generateAdvice env lines) (h ++ gevs)) as [[advice|err] evs];
      simpl in Hev; subst evs; eexists; reflexivity.
  - rewrite StreamAdvice_run, Hloop, streamAdviceGeneration_run. cbv zeta.
    destruct (run (advisor.relay env _ _) _) as [[u|err] evs]; eexists; reflexivity.
Qed.

Lemma cities_in_request_order_witness :
  exists lines gevs,
    let req := demo.request ["Oslo S"; "Paris"] in
    run (advisor.gatherWeather demo.usual (server demo.usual) (advisorpb.Cities req) []) []
      = (Ok lines, gevs)
    /\ shape.InOrder (advisorpb.Cities req) gevs lines
    /\ List.filter is_http_get gevs
         = [HttpGet (advisor.geocodeURL "Oslo S");
            HttpGet (weather.forecastURL 59.9139 10.7522);
            HttpGet (weather.forecastURL 48.8566 2.3522)]
    /\ length lines = 2%nat.
Proof.
  eexists _, _. cbv zeta.
  split; [vm_compute; reflexivity|].
  edestruct (cities_in_request_order demo.usual (demo.request ["Oslo S"; "Paris"]) [])
    as (Hord & Hlen & _); [vm_compute; reflexivity|].
  split; [exact Hord|]. split; [vm_compute; reflexivity|exact Hlen].
Defined.

Lemma HasPrefix_app prefix rest : strings.HasPrefix (prefix +:+ rest) prefix = true.
Proof.
  induction prefix as [|c prefix IH]; simpl.
  - destruct rest; reflexivity.
  - rewrite Ascii.eqb_refl. exact IH.
Qed.

Lemma append_assoc (a b c : string) : (a +:+ b) +:+ c = a +:+ (b +:+ c).
Proof.
  induction a as [|x a IH]; [reflexivity|].
  apply (f_equal (String x)) in IH. exact IH.
Qed.

(** Each line of a loop that went through opens with the coordinate its
    city resolved to. *)
Lemma InOrder_labels cities evs lines :
  shape.InOrder cities evs lines ->
  Forall2
    (fun city line =>
       exists revs coords,
         shape.Resolved city revs coords
         /\ strings.HasPrefix line
              ("City: " +:+ fmt.f 2 coords.1 +:+ "," +:+ fmt.f 2 coords.2 +:+ ", Temp: ")
            = true)
    cities lines.
Proof.
  induction 1 as [|city cities coords w revs wevs evs lines Hres Hfetch _ IH]; constructor.
  - exists revs, coords. split; [exact Hres|].
    destruct Hfetch as [w code Hlabel _]. unfold advisor.weatherInfo. rewrite Hlabel.
    unfold weather.locationLabel.
    set (tail := fmt.f 1 (weatherpb.Temperature w) +:+ _).
    replace ("City: " +:+ (fmt.f 2 coords.1 +:+ "," +:+ fmt.f 2 coords.2) +:+ ", Temp: " +:+ tail)
      with (("City: " +:+ fmt.f 2 coords.1 +:+ "," +:+ fmt.f 2 coords.2 +:+ ", Temp: ") +:+ tail).
    + apply HasPrefix_app.
    + rewrite !append_assoc. reflexivity.
  - exact IH.
Qed.

(** C9. The location label of a successful response is the latitude and
    the longitude of the request, each printed with two decimals and
    joined by a comma. So, in the server, the line of each city in the
    advice prompt opens with "City: " and the coordinate the city resolved
    to, not with the name that was asked for. *)
Theorem location_label_is_coordinates env req h w evs cities h' lines gevs :
  run (weather.GetCurrentWeather env req) h = (Ok w, evs) ->
  run (advisor.gatherWeather env (server env) cities []) h' = (Ok lines, gevs) ->
  weatherpb.Location w
    = fmt.f 2 (weatherpb.Latitude req) +:+ "," +:+ fmt.f 2 (weatherpb.Longitude req)
  /\ Forall2
       (fun city line =>
          exists revs coords,
            shape.Resolved city revs coords
            /\ strings.HasPrefix line
                 ("City: " +:+ fmt.f 2 coords.1 +:+ "," +:+ fmt.f 2 coords.2 +:+ ", Temp: ")
               = true)
       cities lines.
Proof.
  intros Hw Hloop. split.
  - apply GetCurrentWeather_ok in Hw as (resp & data & _ & _ & _ & _ & ->). reflexivity.
  - apply gatherWeather_in_order in Hloop as (new & -> & Hord).
    apply InOrder_labels in Hord. exact Hord.
Qed.

Lemma location_label_is_coordinates_witness :
  exists w evs lines gevs,
    let req := {| weatherpb.Latitude := 40.7128%float; weatherpb.Longitude := (-74.0060)%float |} in
    run (weather.GetCurrentWeather demo.usual req) [] = (Ok w, evs)
    /\ run (advisor.gatherWeather demo.usual (server demo.usual) [demo.city "New York"] []) []
         = (Ok lines, gevs)
    /\ weatherpb.Location w = "40.71,-74.01"
    /\ Forall (fun line =>
                 strings.HasPrefix line "City: 40.71,-74.01, Temp: " = true
                 /\ strings.Contains line "New York" = false) lines
    /\ Forall2
         (fun city line =>
            exists revs coords,
              shape.Resolved city revs coords
              /\ strings.HasPrefix line
                   ("City: " +:+ fmt.f 2 coords.1 +:+ "," +:+ fmt.f 2 coords.2 +:+ ", Temp: ")
                 = true)
         [demo.city "New York"] lines.
Proof.
  eexists _, _, _, _. cbv zeta.
  split; [vm_compute; reflexivity|]. split; [vm_compute; reflexivity|].
  edestruct (location_label_is_coordinates demo.usual) with
      (req := {| weatherpb.Latitude := 40.7128%float; weatherpb.Longitude := (-74.0060)%float |})
      (h := @nil Event) (cities := [demo.city "New York"]) (h' := @nil Event)
    as (Hlabel & Hlines); [vm_compute; reflexivity|vm_compute; reflexivity|].
  split; [vm_compute; reflexivity|].
  split; [repeat constructor|exact Hlines].
Defined.

(** ** The streaming relay *)

Lemma sends_app a b : sends (a ++ b) = sends a ++ sends b.
Proof. apply map_app. Qed.

Lemma sent_messages_app a b : sent_messages (a ++ b) = sent_messages a ++ sent_messages b.
Proof. unfold sent_messages. apply omap_app. Qed.

Lemma sent_messages_sends texts : sent_messages (sends texts) = map advisor.chunk texts.
Proof. induction texts as [|t texts IH]; simpl; [reflexivity|]. f_equal. exact IH. Qed.

Lemma relayed_then texts texts' evs r' evs' :
  relayed texts (Ok tt) evs -> relayed texts' r' evs' ->
  relayed (texts ++ texts') r' (evs ++ evs').
Proof.
  unfold relayed at 1. intros -> H. destruct r' as [u|e]; simpl in *.
  - subst evs'. rewrite sends_app. reflexivity.
  - destruct H as (done & cause & Hpre & -> & ->).
    exists (texts ++ done), cause. split; [|split; [|reflexivity]].
    + apply prefix_app, Hpre.
    + rewrite sends_app. reflexivity.
Qed.

Lemma relayed_stop texts texts' e evs :
  relayed texts (Err e) evs -> relayed (texts ++ texts') (Err e) evs.
Proof.
  intros (done & cause & Hpre & -> & ->). exists done, cause.
  split; [|split; reflexivity]. apply prefix_app_r, Hpre.
Qed.

Lemma sendParts_relayed env parts : forall h,
  relayed (textsOf parts) (run (advisor.sendParts env parts) h).1
    (run (advisor.sendParts env parts) h).2.
Proof.
  induction parts as [|part parts IH]; intros h; [reflexivity|].
  destruct part as [text| |]; try exact (IH h).
  simpl. unfold_run. unfold advisor.Send, call.
  destruct (stream_send env h (advisor.chunk text)) as [cause|].
  - simpl. exists [text], cause. split; [|split; reflexivity].
    apply (prefix_app_r [text] [text] (textsOf parts)). reflexivity.
  - specialize (IH (h ++ [StreamSend (advisor.chunk text)])).
    destruct (advisor.sendParts env parts _) as [r evs]. simpl in *.
    apply (relayed_then [text] (textsOf parts) [StreamSend (advisor.chunk text)] r evs);
      [reflexivity|exact IH].
Qed.

Lemma sendCandidates_relayed env cands : forall h,
  relayed (textsOfCandidates cands) (run (advisor.sendCandidates env cands) h).1
    (run (advisor.sendCandidates env cands) h).2.
Proof.
  induction cands as [|cand cands IH]; intros h; [reflexivity|].
  simpl. unfold_run.
  pose proof (sendParts_relayed env (genai.Parts (genai.CandidateContent cand)) h) as Hp.
  unfold run in Hp.
  destruct (advisor.sendParts env _ h) as [[[]|e] evs]; simpl in Hp.
  - specialize (IH (h ++ evs)). unfold run in IH.
    destruct (advisor.sendCandidates env cands _) as [r evs']. simpl in *.
    eapply relayed_then; [exact Hp|exact IH].
  - simpl. rewrite app_nil_r. apply relayed_stop. exact Hp.
Qed.

Lemma generated_cons resp responses :
  generated (resp :: responses)
    = textsOfCandidates (genai.Candidates resp) ++ generated responses.
Proof. reflexivity. Qed.


Lemma relay_Relayed env pending stop : forall h,
  Relayed pending stop (run (advisor.relay env pending stop) h).1
    (run (advisor.relay env pending stop) h).2.
Proof.
  induction pending as [|resp pending IH]; intros h.
  - simpl. destruct (advisor.endOfStream stop) eqn:Heos.
    + unfold run, advisor.Send, call.
      destruct (stream_send env h advisor.completion) as [cause|]; simpl.
      * apply (relayed_completion_lost [] stop cause Heos).
      * apply (relayed_complete [] stop Heos).
    + apply (relayed_generation_failed [] stop Heos).
  - simpl. unfold_run.
    pose proof (sendCandidates_relayed env (genai.Candidates resp) h) as Hc.
    unfold run in Hc.
    destruct (advisor.sendCandidates env _ h) as [[[]|e] evs]; simpl in Hc.
    + subst evs. specialize (IH (h ++ sends (textsOfCandidates (genai.Candidates resp)))).
      unfold run in IH.
      destruct (advisor.relay env pending stop _) as [r evs]. cbn [fst snd] in *.
      destruct IH as [Heos|cause Heos|Heos|done cause Hpre].
      * rewrite app_assoc, <- sends_app, <- generated_cons. apply relayed_complete, Heos.
      * rewrite app_assoc, <- sends_app, <- generated_cons.
        apply relayed_completion_lost, Heos.
      * rewrite <- sends_app, <- generated_cons. apply relayed_generation_failed, Heos.
      * rewrite <- sends_app. apply relayed_send_failed.
        rewrite generated_cons. apply prefix_app, Hpre.
    + destruct Hc as (done & cause & Hpre & -> & ->). cbn [fst snd]. rewrite app_nil_r.
      apply relayed_send_failed. rewrite generated_cons. apply prefix_app_r, Hpre.
Qed.

(** StreamAdvice after a loop over the cities that went through: the
    request for a stream, the relay, the counter and the timer. *)
Lemma StreamAdvice_outcome env s req h lines gevs :
  run (advisor.gatherWeather env s (advisorpb.Cities req) []) h = (Ok lines, gevs) ->
  let prompt := advisor.advicePrompt lines in
  let asked := GenerateContentStream advisor.modelName prompt in
  let iter := generate_content_stream env (h ++ gevs) advisor.modelName prompt in
  exists r revs,
    Relayed (genai.pending iter) (genai.stop iter) r revs
    /\ run (advisor.StreamAdvice env s req) h
       = (match r with
          | Ok _ => Ok tt
          | Err e => Err ("advice generation failed: " +:+ e)
          end,
          gevs ++ asked :: revs
          ++ [CounterInc advisor.advisorRequests
                (match r with Ok _ => "success" | Err _ => "error" end);
              ObserveDuration advisor.advisorDuration]).
Proof.
  intros Hloop prompt asked iter.
  pose proof (relay_Relayed env (genai.pending iter) (genai.stop iter)
                ((h ++ gevs) ++ [asked])) as Hrel.
  rewrite StreamAdvice_run, Hloop, streamAdviceGeneration_run. cbv zeta.
  fold prompt. fold asked. fold iter.
  destruct (run (advisor.relay env _ _) _) as [r revs]. cbn [fst snd] in Hrel.
  exists r, revs. split; [exact Hrel|].
  destruct r as [[]|e]; reflexivity.
Qed.

Lemma nonfinal_chunks texts :
  List.filter (fun m => negb (advisorpb.IsComplete m))
    (map advisor.chunk texts ++ [advisor.completion])
  = map advisor.chunk texts.
Proof.
  induction texts as [|t texts IH]; simpl; [reflexivity|]. f_equal. exact IH.
Qed.

Lemma chunk_texts texts : map advisorpb.Chunk (map advisor.chunk texts) = texts.
Proof. induction texts as [|t texts IH]; simpl; [reflexivity|]. f_equal. exact IH. Qed.



(** X2. When the cities go through and the message of the error that
    ends the iterator has neither "EOF" nor "iterator stopped" in it,
    StreamAdvice fails and no message it sent is marked complete. The
    error is GenerationError, "streaming failed" with the iterator's error,
    after every generated text was sent; unless a send failed first, and
    then the iterator was never asked for that error. *)
Theorem generation_error_sends_no_completion env req h lines gevs :
  run (advisor.gatherWeather env (server env) (advisorpb.Cities req) []) h = (Ok lines, gevs) ->
  let iter :=
    generate_content_stream env (h ++ gevs) advisor.modelName (advisor.advicePrompt lines) in
  advisor.endOfStream (genai.stop iter) = false ->
  exists e evs,
    run (advisor.StreamAdvice env (server env) req) h = (Err e, evs)
    /\ Forall (fun m => advisorpb.IsComplete m = false) (sent_messages evs)
    /\ ((e = "advice generation failed: streaming failed: " +:+ genai.stop iter
         /\ condition.GenerationError e
         /\ sent_messages evs = map advisor.chunk (generated (genai.pending iter)))
        \/ (exists cause, e = "advice generation failed: failed to send chunk: " +:+ cause)).
Proof.
  intros Hloop iter Hstop.
  destruct (StreamAdvice_outcome _ _ _ _ _ _ Hloop) as (r & revs & Hrel & Hout).
  fold iter in Hrel.
  assert (sent_messages gevs = []) as Hquiet.
  { pose proof (gatherWeather_gathering env (advisorpb.Cities req) [] h) as Hg.
    rewrite Hloop in Hg. apply gathering_sends_nothing in Hg as [Hs _]. exact Hs. }
  assert (forall texts,
            sent_messages (gevs ++ GenerateContentStream advisor.modelName
                                     (advisor.advicePrompt lines)
                           :: sends texts
                           ++ [CounterInc advisor.advisorRequests "error";
                               ObserveDuration advisor.advisorDuration])
            = map advisor.chunk texts) as Hsent.
  { intros texts. rewrite sent_messages_app, Hquiet. simpl.
    change (sent_messages (sends texts ++ ?tail)) with (sent_messages (sends texts ++ tail)).
    rewrite sent_messages_app, sent_messages_sends. apply app_nil_r. }
  assert (forall texts, Forall (fun m => advisorpb.IsComplete m = false)
                          (map advisor.chunk texts)) as Hchunks.
  { intros texts. apply Forall_map. apply Forall_forall. reflexivity. }
  destruct Hrel as [Heos|cause Heos|_|done cause Hpre]; try congruence.
  - eexists _, _. split; [exact Hout|]. rewrite Hsent. split; [apply Hchunks|].
    left. split; [reflexivity|]. split; [|reflexivity].
    exists (genai.stop iter). reflexivity.
  - eexists _, _. split; [exact Hout|]. rewrite Hsent. split; [apply Hchunks|].
    right. exists cause. reflexivity.
Qed.

Lemma generation_error_sends_no_completion_witness :
  exists evs,
    let env := demo.env (inr demo.reply)
                 (demo.iterator "rpc error: code = Unavailable desc = connection reset") in
    run (advisor.StreamAdvice env (server env) (demo.request ["London"])) []
      = (Err "advice generation failed: streaming failed: rpc error: code = Unavailable desc = connection reset",
         evs)
    /\ Forall (fun m => advisorpb.IsComplete m = false) (sent_messages evs)
    /\ map advisorpb.Chunk (sent_messages evs) = ["Mild and "; "partly cloudy."; ""].
Proof.
  eexists. cbv zeta. split; [vm_compute; reflexivity|].
  set (env := demo.env (inr demo.reply)
                (demo.iterator "rpc error: code = Unavailable desc = connection reset")).
  edestruct (generation_error_sends_no_completion env (demo.request ["London"]) [])
    as (e & evs & Hrun & Hnone & _);
    [vm_compute; reflexivity|vm_compute; reflexivity|].
  vm_compute in Hrun. injection Hrun as <- <-.
  split; [exact Hnone|]. vm_compute. reflexivity.
Defined.

(** Every error whose message has "EOF" somewhere in it counts as the end
    of the stream. *)
Lemma Contains_app before sub after :
  strings.Contains (before +:+ sub +:+ after) sub = true.
Proof.
  induction before as [|c before IH].
  - change ("" +:+ sub +:+ after) with (sub +:+ after).
    rewrite Contains_unfold, HasPrefix_app. reflexivity.
  - change (String c before +:+ sub +:+ after) with (String c (before +:+ sub +:+ after)).
    rewrite Contains_unfold, IH. destruct (strings.HasPrefix _ sub); reflexivity.
Qed.


(** C3 does not hold of the code. The backend's stream breaks after three
    segments and the iterator returns the transport's error, whose message
    ends in "EOF"; this is not the end of the stream, yet the loop takes it
    for one: StreamAdvice sends the segments, then the completion message,
    counts a success and returns no error. *)
Theorem broken_stream_reported_complete :
  let broken := "rpc error: code = Unavailable desc = error reading from server: EOF" in
  let env := demo.env (inr demo.reply) (demo.iterator broken) in
  advisor.endOfStream broken = true
  /\ (run (advisor.StreamAdvice env (server env) (demo.request ["London"])) []).1 = Ok tt
  /\ sent_messages (run (advisor.StreamAdvice env (server env) (demo.request ["London"])) []).2
     = [advisor.chunk "Mild and "; advisor.chunk "partly cloudy."; advisor.chunk "";
        advisor.completion]
  /\ In (CounterInc advisor.advisorRequests "success")
       (run (advisor.StreamAdvice env (server env) (demo.request ["London"])) []).2.
Proof.
  cbv zeta. split; [vm_compute; reflexivity|]. split; [vm_compute; reflexivity|].
  split; [vm_compute; reflexivity|]. vm_compute. tauto.
Qed.

(** ** The single-shot answer *)

Lemma append_empty_r (s : string) : s +:+ "" = s.
Proof.
  induction s as [|c s IH]; [reflexivity|].
  apply (f_equal (String c)) in IH. exact IH.
Qed.

Lemma textOf_concatenated parts : advisor.textOf parts = concatenated (textsOf parts).
Proof.
  unfold advisor.textOf.
  assert (forall acc,
            fold_left
              (fun advice part =>
                 match part with
                 | genai.Text text => strings.WriteString advice text
                 | _ => advice
                 end) parts acc
            = acc +:+ concatenated (textsOf parts)) as H.
  { induction parts as [|part parts IH]; intros acc.
    - symmetry. apply append_empty_r.
    - destruct part as [text| |]; simpl; rewrite IH; [|reflexivity|reflexivity].
      unfold strings.WriteString. apply append_assoc. }
  apply H.
Qed.

Lemma concatenated_empty texts :
  concatenated texts = "" <-> Forall (fun text => text = "") texts.
Proof.
  induction texts as [|t texts IH]; simpl.
  - split; [constructor|reflexivity].
  - split.
    + intros H. destruct t as [|c t]; [|discriminate H].
      constructor; [reflexivity|]. apply IH. exact H.
    + intros H. inversion H as [|? ? Ht Hrest]; subst. apply IH. exact Hrest.
Qed.

(** C6, as the code has it. When the cities go through and the backend
    answers with at least one candidate, GetAdvice returns the text parts
    of the first candidate put together in order, and that is the empty
    string exactly when the candidate has no text part that is not empty;
    when the backend answers with no candidate, GetAdvice fails with
    NoResponse. *)
Theorem advice_is_first_candidate_text env s req h lines gevs :
  run (advisor.gatherWeather env s (advisorpb.Cities req) []) h = (Ok lines, gevs) ->
  let prompt := advisor.advicePrompt lines in
  let asked := GenerateContent advisor.modelName prompt in
  (forall first others,
      generate_content env (h ++ gevs) advisor.modelName prompt
        = inr {| genai.Candidates := first :: others |} ->
      let texts := textsOf (genai.Parts (genai.CandidateContent first)) in
      run (advisor.GetAdvice env s req) h
        = (Ok {| advisorpb.Advice := concatenated texts |},
           gevs ++ [asked; CounterInc advisor.advisorRequests "success";
                    ObserveDuration advisor.advisorDuration])
      /\ (concatenated texts = "" <-> Forall (fun text => text = "") texts))
  /\ (generate_content env (h ++ gevs) advisor.modelName prompt
        = inr {| genai.Candidates := [] |} ->
      exists e,
        run (advisor.GetAdvice env s req) h
          = (Err e, gevs ++ [asked; CounterInc advisor.advisorRequests "error";
                             ObserveDuration advisor.advisorDuration])
        /\ condition.NoResponse e).
Proof.
  intros Hloop prompt asked. split.
  - intros first others Hgen texts. split; [|apply concatenated_empty].
    rewrite GetAdvice_run, Hloop. unfold advisor.generateAdvice. unfold_run.
    fold prompt. rewrite Hgen. simpl. rewrite textOf_concatenated. reflexivity.
  - intros Hgen. eexists. split; [|reflexivity].
    rewrite GetAdvice_run, Hloop. unfold advisor.generateAdvice. unfold_run.
    fold prompt. rewrite Hgen. reflexivity.
Qed.

Lemma advice_is_first_candidate_text_witness :
  (exists evs,
      run (advisor.GetAdvice demo.usual (server demo.usual) (demo.request ["London"; "Oslo"])) []
        = (Ok {| advisorpb.Advice := "Mild and partly cloudy. A light jacket will do." |}, evs))
  /\ (let env := demo.env (inr {| genai.Candidates := [] |}) (demo.iterator "EOF") in
      exists evs,
        run (advisor.GetAdvice env (server env) (demo.request ["London"; "Oslo"])) []
          = (Err "advice generation failed: no response generated", evs)).
Proof.
  split.
  - edestruct (advice_is_first_candidate_text demo.usual (server demo.usual)
                 (demo.request ["London"; "Oslo"]) []) as (Hsome & _);
      [vm_compute; reflexivity|].
    edestruct Hsome as (Hrun & _); [vm_compute; reflexivity|].
    eexists. rewrite Hrun. apply f_equal2; [vm_compute; reflexivity|reflexivity].
  - cbv zeta.
    set (env := demo.env (inr {| genai.Candidates := [] |}) (demo.iterator "EOF")).
    edestruct (advice_is_first_candidate_text env (server env)
                 (demo.request ["London"; "Oslo"]) []) as (_ & Hnone);
      [vm_compute; reflexivity|].
    edestruct Hnone as (e & Hrun & He); [vm_compute; reflexivity|].
    eexists. rewrite Hrun. apply f_equal2; [rewrite He; reflexivity|reflexivity].
Defined.

(** C6, as the specification states it, fails: the backend answers with
    one candidate that holds no text, every city of the request is valid,
    and GetAdvice succeeds with the empty string for advice. *)
Lemma empty_advice_counterexample :
  let env := demo.env (inr demo.silent) (demo.iterator "EOF") in
  let req := demo.request ["London"] in
  length (advisorpb.Cities req) = 1%nat
  /\ length (genai.Candidates demo.silent) = 1%nat
  /\ (run (advisor.GetAdvice env (server env) req) []).1 = Ok {| advisorpb.Advice := "" |}.
Proof. vm_compute. repeat split. Qed.

(** * More properties of the services *)

(** X3. Every call of GetCurrentWeather makes exactly one request to the
    forecast URL of its coordinate, and never a second one; it reads the
    clock only when the request succeeded; it increments
    [weather_requests_total] exactly once, under "success" when it returns
    a response and under "error" when it returns an error; and it observes
    the duration last. *)
Theorem weather_call_trace env req h :
  (run (weather.GetCurrentWeather env req) h).2
  = HttpGet (weather.forecastURL (weatherpb.Latitude req) (weatherpb.Longitude req))
    :: match (run (weather.GetCurrentWeather env req) h).1 with
       | Ok _ => [TimeNow; CounterInc weather.weatherRequests "success"]
       | Err _ => [CounterInc weather.weatherRequests "error"]
       end
    ++ [ObserveDuration weather.weatherDuration].
Proof.
  unfold weather.GetCurrentWeather. unfold_run.
  destruct (http_get env h _) as [err|resp]; [reflexivity|].
  destruct (negb _); [reflexivity|].
  destruct (decode_weather env _) as [err|data]; reflexivity.
Qed.

(** *** The hints of a city *)

Lemma geocodeCity_by_location env city city' apiKey apiKey' h :
  advisorpb.Location city = advisorpb.Location city' ->
  run (advisor.geocodeCity env city apiKey) h = run (advisor.geocodeCity env city' apiKey') h.
Proof. intros Hloc. unfold advisor.geocodeCity. rewrite Hloc. reflexivity. Qed.

Lemma gatherWeather_by_location env s cities : forall cities' acc h,
  map advisorpb.Location cities = map advisorpb.Location cities' ->
  run (advisor.gatherWeather env s cities acc) h
  = run (advisor.gatherWeather env s cities' acc) h.
Proof.
  induction cities as [|city cities IH]; intros [|city' cities'] acc h Hmap;
    try discriminate Hmap; [reflexivity|].
  injection Hmap as Hloc Hrest.
  rewrite !gatherWeather_cons, (geocodeCity_by_location env city city' "" "" h Hloc), Hloc.
  destruct (run (advisor.geocodeCity env city' "") h) as [[[lat lon]|err] revs]; [|reflexivity].
  destruct (run (advisor.weatherSvc s _) (h ++ revs)) as [[w|err] wevs]; [|reflexivity].
  rewrite (IH cities' _ _ Hrest). reflexivity.
Qed.

(** X4. The state and country of a city are never read: two requests
    that name the same locations in the same order get the same result
    and cause the same events, from GetAdvice and from StreamAdvice,
    whatever hints they carry. *)
Theorem hints_are_ignored env s req req' h :
  map advisorpb.Location (advisorpb.Cities req)
  = map advisorpb.Location (advisorpb.Cities req') ->
  run (advisor.GetAdvice env s req) h = run (advisor.GetAdvice env s req') h
  /\ run (advisor.StreamAdvice env s req) h = run (advisor.StreamAdvice env s req') h.
Proof.
  intros Hmap. rewrite !GetAdvice_run, !StreamAdvice_run.
  rewrite (gatherWeather_by_location env s _ _ [] h Hmap). split; reflexivity.
Qed.

Lemma hints_are_ignored_witness :
  let paris_tx :=
    {| advisorpb.Cities :=
         [{| advisorpb.Location := "Paris"; advisorpb.State := "TX"; advisorpb.Country := "US" |}] |} in
  let paris_fr :=
    {| advisorpb.Cities :=
         [{| advisorpb.Location := "Paris"; advisorpb.State := ""; advisorpb.Country := "FR" |}] |} in
  run (advisor.GetAdvice demo.usual (server demo.usual) paris_tx) []
  = run (advisor.GetAdvice demo.usual (server demo.usual) paris_fr) []
  /\ run (advisor.StreamAdvice demo.usual (server demo.usual) paris_tx) []
     = run (advisor.StreamAdvice demo.usual (server demo.usual) paris_fr) [].
Proof.
  cbv zeta. apply hints_are_ignored. reflexivity.
Defined.

(** *** The request counter *)

Lemma advisorOutcomes_app a b :
  trace.advisorOutcomes (a ++ b) = trace.advisorOutcomes a ++ trace.advisorOutcomes b.
Proof. unfold trace.advisorOutcomes. apply omap_app. Qed.

Lemma advisorOutcomes_sends texts : trace.advisorOutcomes (sends texts) = [].
Proof. induction texts as [|t texts IH]; [reflexivity|exact IH]. Qed.

Lemma advisorOutcomes_geocode env city apiKey h :
  trace.advisorOutcomes (run (advisor.geocodeCity env city apiKey) h).2 = [].
Proof.
  destruct (advisor.cityCoords !! advisorpb.Location city) as [c|] eqn:Hin.
  - unfold advisor.geocodeCity. rewrite Hin. reflexivity.
  - rewrite geocodeCity_remote_events by exact Hin. reflexivity.
Qed.

Lemma advisorOutcomes_weather env req h :
  trace.advisorOutcomes (run (weather.GetCurrentWeather env req) h).2 = [].
Proof.
  unfold weather.GetCurrentWeather. unfold_run.
  destruct (http_get env h _) as [err|resp]; [reflexivity|].
  destruct (negb _); [reflexivity|].
  destruct (decode_weather env _) as [err|data]; reflexivity.
Qed.

Lemma advisorOutcomes_gather env cities : forall acc h,
  trace.advisorOutcomes (run (advisor.gatherWeather env (server env) cities acc) h).2
  = match (run (advisor.gatherWeather env (server env) cities acc) h).1 with
    | Ok _ => []
    | Err _ => ["error"]
    end.
Proof.
  induction cities as [|city cities IH]; intros acc h; [reflexivity|].
  rewrite gatherWeather_cons.
  pose proof (advisorOutcomes_geocode env city "" h) as Hg.
  destruct (run (advisor.geocodeCity env city "") h) as [[[lat lon]|err] revs];
    cbn [fst snd] in Hg.
  - pose proof (advisorOutcomes_weather env
                  {| weatherpb.Latitude := lat; weatherpb.Longitude := lon |} (h ++ revs)) as Hw.
    change (advisor.weatherSvc (server env)) with (weather.GetCurrentWeather env).
    destruct (run (weather.GetCurrentWeather env _) (h ++ revs)) as [[w|err] wevs];
      cbn [fst snd] in Hw.
    + specialize (IH (acc ++ [advisor.weatherInfo w]) (h ++ revs ++ wevs)).
      destruct (run (advisor.gatherWeather env (server env) cities _) _) as [r evs].
      cbn [fst snd] in *. rewrite !advisorOutcomes_app, Hg, Hw. exact IH.
    + cbn [fst snd]. rewrite !advisorOutcomes_app, Hg, Hw. reflexivity.
  - cbn [fst snd]. rewrite advisorOutcomes_app, Hg. reflexivity.
Qed.

Lemma Relayed_outcomes pending stop r revs :
  Relayed pending stop r revs -> trace.advisorOutcomes revs = [].
Proof.
  intros [Heos|cause Heos|Heos|done cause Hpre];
    rewrite ?advisorOutcomes_app, advisorOutcomes_sends; reflexivity.
Qed.

(** X5. In the server, every call of GetAdvice and every call of
    StreamAdvice increments [advisor_requests_total] exactly once: under
    "success" when the call returns no error, under "error" when it
    returns one, whichever step failed. The duration is observed last. *)
Theorem advisor_counted_once env req h :
  let label {A} (r : Res A) := match r with Ok _ => "success" | Err _ => "error" end in
  let got := run (advisor.GetAdvice env (server env) req) h in
  let streamed := run (advisor.StreamAdvice env (server env) req) h in
  trace.advisorOutcomes got.2 = [label got.1]
  /\ trace.advisorOutcomes streamed.2 = [label streamed.1]
  /\ last got.2 = Some (ObserveDuration advisor.advisorDuration)
  /\ last streamed.2 = Some (ObserveDuration advisor.advisorDuration).
Proof.
  cbv zeta.
  pose proof (advisorOutcomes_gather env (advisorpb.Cities req) [] h) as Hg.
  destruct (run (advisor.gatherWeather env (server env) (advisorpb.Cities req) []) h)
    as [[lines|err] gevs] eqn:Hloop; cbn [fst snd] in Hg.
  - assert (forall (label : string) tail,
              trace.advisorOutcomes tail = [] ->
              trace.advisorOutcomes
                (gevs ++ tail ++ [CounterInc advisor.advisorRequests label;
                                  ObserveDuration advisor.advisorDuration]) = [label]
              /\ last (gevs ++ tail ++ [CounterInc advisor.advisorRequests label;
                                        ObserveDuration advisor.advisorDuration])
                 = Some (ObserveDuration advisor.advisorDuration)) as Hend.
    { intros label tail Htail. split.
      - rewrite !advisorOutcomes_app, Hg, Htail. reflexivity.
      - rewrite !app_assoc.
        change [CounterInc advisor.advisorRequests label;
                ObserveDuration advisor.advisorDuration]
          with ([CounterInc advisor.advisorRequests label]
                ++ [ObserveDuration advisor.advisorDuration]).
        rewrite app_assoc. apply last_snoc. }
    assert (let got := run (advisor.GetAdvice env (server env) req) h in
            trace.advisorOutcomes got.2
            = [match got.1 with Ok _ => "success" | Err _ => "error" end]
            /\ last got.2 = Some (ObserveDuration advisor.advisorDuration)) as [Hg1 Hg2].
    { cbv zeta. rewrite GetAdvice_run, Hloop.
      pose proof (generateAdvice_events env lines (h ++ gevs)) as Hev.
      destruct (run (advisor.generateAdvice env lines) (h ++ gevs)) as [[advice|e] evs];
        cbn [fst snd] in *; subst evs; apply Hend; reflexivity. }
    assert (let streamed := run (advisor.StreamAdvice env (server env) req) h in
            trace.advisorOutcomes streamed.2
            = [match streamed.1 with Ok _ => "success" | Err _ => "error" end]
            /\ last streamed.2 = Some (ObserveDuration advisor.advisorDuration)) as [Hs1 Hs2].
    { cbv zeta.
      destruct (StreamAdvice_outcome _ _ _ _ _ _ Hloop) as (r & revs & Hrel & Hout).
      rewrite Hout. apply Relayed_outcomes in Hrel.
      change (GenerateContentStream advisor.modelName (advisor.advicePrompt lines) :: revs
              ++ ?tail)
        with ((GenerateContentStream advisor.modelName (advisor.advicePrompt lines) :: revs)
              ++ tail).
      destruct r as [[]|e]; cbn [fst snd]; apply Hend; exact Hrel. }
    repeat split; assumption.
  - rewrite GetAdvice_run, StreamAdvice_run, Hloop. cbn [fst snd].
    rewrite !advisorOutcomes_app, Hg, last_snoc. repeat split.
Qed.

(** *** Sends the sink refuses *)

Lemma Accepted_app env h a b :
  trace.Accepted env h a -> trace.Accepted env (h ++ a) b -> trace.Accepted env h (a ++ b).
Proof.
  induction 1 as [h|h msg evs Hok _ IH]; intros Hb.
  - rewrite app_nil_r in Hb. exact Hb.
  - simpl. constructor; [exact Hok|]. apply IH. rewrite <- app_assoc. exact Hb.
Qed.

Lemma UntilRefused_after env h a b refused :
  trace.Accepted env h a ->
  trace.UntilRefused env (h ++ a) b (Some refused) ->
  trace.UntilRefused env h (a ++ b) (Some refused).
Proof.
  intros Ha Hb. inversion Hb as [|evs msg cause Hacc Hno]; subst.
  rewrite app_assoc. constructor.
  - apply Accepted_app; assumption.
  - rewrite app_assoc. exact Hno.
Qed.

Lemma sendsOutcome_then env h evs r' evs' :
  trace.sendsOutcome env h (Ok tt) evs -> trace.sendsOutcome env (h ++ evs) r' evs' ->
  trace.sendsOutcome env h r' (evs ++ evs').
Proof.
  intros Ha Hb. destruct r' as [u|e]; simpl in *.
  - apply Accepted_app; assumption.
  - destruct Hb as (msg & cause & Hb & Hmsg & He). exists msg, cause.
    split; [|split; assumption]. apply UntilRefused_after; assumption.
Qed.

Lemma sendParts_outcome env parts : forall h,
  trace.sendsOutcome env h (run (advisor.sendParts env parts) h).1
    (run (advisor.sendParts env parts) h).2.
Proof.
  induction parts as [|part parts IH]; intros h; [constructor|].
  destruct part as [text| |]; try exact (IH h).
  simpl. unfold_run. unfold advisor.Send, call.
  destruct (stream_send env h (advisor.chunk text)) as [cause|] eqn:Hsend.
  - cbn [fst snd]. exists (advisor.chunk text), cause. split; [|split; reflexivity].
    apply (trace.last_refused env h [] (advisor.chunk text) cause); [constructor|].
    rewrite app_nil_r. exact Hsend.
  - specialize (IH (h ++ [StreamSend (advisor.chunk text)])). unfold run in IH.
    destruct (advisor.sendParts env parts _) as [r evs]. cbn [fst snd] in *.
    apply (sendsOutcome_then env h [StreamSend (advisor.chunk text)] r evs);
      [|exact IH].
    constructor; [exact Hsend|constructor].
Qed.

Lemma sendCandidates_outcome env cands : forall h,
  trace.sendsOutcome env h (run (advisor.sendCandidates env cands) h).1
    (run (advisor.sendCandidates env cands) h).2.
Proof.
  induction cands as [|cand cands IH]; intros h; [constructor|].
  simpl. unfold_run.
  pose proof (sendParts_outcome env (genai.Parts (genai.CandidateContent cand)) h) as Hp.
  unfold run in Hp.
  destruct (advisor.sendParts env _ h) as [[[]|e] evs]; cbn [fst snd] in Hp.
  - specialize (IH (h ++ evs)). unfold run in IH.
    destruct (advisor.sendCandidates env cands _) as [r evs']. cbn [fst snd] in *.
    eapply sendsOutcome_then; [exact Hp|exact IH].
  - cbn [fst snd]. rewrite app_nil_r. exact Hp.
Qed.

Lemma relay_outcome env pending stop : forall h,
  trace.relayOutcome env h stop (run (advisor.relay env pending stop) h).1
    (run (advisor.relay env pending stop) h).2.
Proof.
  induction pending as [|resp pending IH]; intros h.
  - simpl. destruct (advisor.endOfStream stop).
    + unfold run, advisor.Send, call.
      destruct (stream_send env h advisor.completion) as [cause|] eqn:Hsend; cbn [fst snd].
      * right. exists advisor.completion, cause. split; [|reflexivity].
        apply (trace.last_refused env h [] advisor.completion cause); [constructor|].
        rewrite app_nil_r. exact Hsend.
      * constructor; [exact Hsend|constructor].
    + left. split; [constructor|reflexivity].
  - simpl. unfold_run.
    pose proof (sendCandidates_outcome env (genai.Candidates resp) h) as Hc. unfold run in Hc.
    destruct (advisor.sendCandidates env _ h) as [[[]|e] evs]; cbn [fst snd] in Hc.
    + specialize (IH (h ++ evs)). unfold run in IH.
      destruct (advisor.relay env pending stop _) as [r evs']. cbn [fst snd] in *.
      destruct r as [u|e]; simpl in *.
      * apply Accepted_app; assumption.
      * destruct IH as [[Hacc He]|(msg & cause & Href & He)].
        -- left. split; [apply Accepted_app; assumption|exact He].
        -- right. exists msg, cause. split; [|exact He].
           apply UntilRefused_after; assumption.
    + cbn [fst snd]. rewrite app_nil_r.
      destruct Hc as (msg & cause & Href & Hmsg & He). right. exists msg, cause.
      split; [exact Href|]. rewrite Hmsg. exact He.
Qed.

Lemma StreamAdvice_relay env s req h lines gevs :
  run (advisor.gatherWeather env s (advisorpb.Cities req) []) h = (Ok lines, gevs) ->
  let prompt := advisor.advicePrompt lines in
  let asked := GenerateContentStream advisor.modelName prompt in
  let iter := generate_content_stream env (h ++ gevs) advisor.modelName prompt in
  let relayed := run (advisor.relay env (genai.pending iter) (genai.stop iter))
                   ((h ++ gevs) ++ [asked]) in
  run (advisor.StreamAdvice env s req) h
  = (match relayed.1 with
     | Ok _ => Ok tt
     | Err e => Err ("advice generation failed: " +:+ e)
     end,
     gevs ++ asked :: relayed.2
     ++ [CounterInc advisor.advisorRequests
           (match relayed.1 with Ok _ => "success" | Err _ => "error" end);
         ObserveDuration advisor.advisorDuration]).
Proof.
  intros Hloop prompt asked iter relayed.
  rewrite StreamAdvice_run, Hloop, streamAdviceGeneration_run. cbv zeta.
  fold prompt. fold asked. fold iter. fold relayed.
  destruct relayed as [[[]|e] revs]; reflexivity.
Qed.

Lemma sent_messages_around gevs asked revs tail :
  sent_messages gevs = [] -> sent asked = None -> sent_messages tail = [] ->
  sent_messages (gevs ++ asked :: revs ++ tail) = sent_messages revs.
Proof.
  intros Hg Ha Ht.
  change (asked :: revs ++ tail) with ([asked] ++ revs ++ tail).
  rewrite !sent_messages_app, Hg, Ht, app_nil_r.
  unfold sent_messages at 1. simpl. rewrite Ha. reflexivity.
Qed.

Lemma gather_sends_nothing env cities acc h :
  sent_messages (run (advisor.gatherWeather env (server env) cities acc) h).2 = [].
Proof.
  pose proof (gatherWeather_gathering env cities acc h) as Hg.
  apply gathering_sends_nothing in Hg as [Hs _]. exact Hs.
Qed.

(** X6. Whatever happens in a call of StreamAdvice, the messages sent
    are non-final chunks carrying a prefix of the generated text segments,
    in order, followed by at most one completion message; the completion
    message is there only after every segment and only when the iterator
    error passed for the end of the stream, and it is there whenever the
    call returns no error. When a city fails nothing is sent. *)
Theorem stream_messages_shape env req h :
  let out := run (advisor.StreamAdvice env (server env) req) h in
  match run (advisor.gatherWeather env (server env) (advisorpb.Cities req) []) h with
  | (Err _, _) => sent_messages out.2 = []
  | (Ok lines, gevs) =>
      let iter :=
        generate_content_stream env (h ++ gevs) advisor.modelName (advisor.advicePrompt lines) in
      exists texts tail,
        sent_messages out.2 = map advisor.chunk texts ++ tail
        /\ texts `prefix_of` generated (genai.pending iter)
        /\ (tail = []
            \/ (tail = [advisor.completion]
                /\ texts = generated (genai.pending iter)
                /\ advisor.endOfStream (genai.stop iter) = true))
        /\ (out.1 = Ok tt -> tail = [advisor.completion])
  end.
Proof.
  cbv zeta.
  pose proof (gather_sends_nothing env (advisorpb.Cities req) [] h) as Hquiet.
  destruct (run (advisor.gatherWeather env (server env) (advisorpb.Cities req) []) h)
    as [[lines|err] gevs] eqn:Hloop; cbn [fst snd] in Hquiet.
  - destruct (StreamAdvice_outcome _ _ _ _ _ _ Hloop) as (r & revs & Hrel & Hout).
    rewrite Hout. cbn [fst snd].
    rewrite sent_messages_around; [|exact Hquiet|reflexivity|reflexivity].
    destruct Hrel as [Heos|cause Heos|Heos|done cause Hpre].
    + eexists _, [advisor.completion]. rewrite sent_messages_app, sent_messages_sends.
      split; [reflexivity|]. split; [reflexivity|]. split; [right; auto|reflexivity].
    + eexists _, [advisor.completion]. rewrite sent_messages_app, sent_messages_sends.
      split; [reflexivity|]. split; [reflexivity|]. split; [right; auto|reflexivity].
    + eexists _, []. rewrite sent_messages_sends, app_nil_r.
      split; [reflexivity|]. split; [reflexivity|]. split; [left; reflexivity|discriminate].
    + exists done, []. rewrite sent_messages_sends, app_nil_r.
      split; [reflexivity|]. split; [exact Hpre|]. split; [left; reflexivity|discriminate].
  - rewrite StreamAdvice_run, Hloop. cbn [fst snd].
    rewrite sent_messages_app, Hquiet. reflexivity.
Qed.

(** X7. A send the sink refuses is the last one: in every call of
    StreamAdvice the sends come in one run, the sink accepted each of them
    except possibly the last, nothing is sent after a refusal, and the
    refusal is the error of the call ("failed to send chunk" with the
    sink's error for a chunk, the sink's error itself for the completion
    message). *)
Theorem refused_send_is_last env req h :
  let out := run (advisor.StreamAdvice env (server env) req) h in
  exists before sends_made refused after,
    out.2 = before ++ sends_made ++ after
    /\ sent_messages before = []
    /\ sent_messages after = []
    /\ trace.UntilRefused env (h ++ before) sends_made refused
    /\ match refused with
       | None => True
       | Some (msg, cause) =>
           out.1 = Err ("advice generation failed: "
                        +:+ (if advisorpb.IsComplete msg then cause
                             else "failed to send chunk: " +:+ cause))
       end.
Proof.
  cbv zeta.
  pose proof (gather_sends_nothing env (advisorpb.Cities req) [] h) as Hquiet.
  destruct (run (advisor.gatherWeather env (server env) (advisorpb.Cities req) []) h)
    as [[lines|err] gevs] eqn:Hloop; cbn [fst snd] in Hquiet.
  - rewrite (StreamAdvice_relay _ _ _ _ _ _ Hloop). cbv zeta.
    set (asked := GenerateContentStream advisor.modelName (advisor.advicePrompt lines)).
    set (iter := generate_content_stream env (h ++ gevs) advisor.modelName
                   (advisor.advicePrompt lines)).
    pose proof (relay_outcome env (genai.pending iter) (genai.stop iter)
                  ((h ++ gevs) ++ [asked])) as Hrel.
    destruct (run (advisor.relay env _ _) _) as [r revs]. cbn [fst snd] in *.
    assert (sent_messages (gevs ++ [asked]) = []) as Hbefore
      by (rewrite sent_messages_app, Hquiet; reflexivity).
    assert (forall tail, gevs ++ asked :: revs ++ tail = (gevs ++ [asked]) ++ revs ++ tail)
      as Hshape by (intros tail; rewrite <- app_assoc; reflexivity).
    rewrite <- app_assoc in Hrel.
    destruct r as [[]|e]; simpl in Hrel.
    + exists (gevs ++ [asked]), revs, None. eexists. rewrite Hshape.
      split; [reflexivity|]. split; [exact Hbefore|]. split; [reflexivity|].
      split; [|exact I]. constructor. exact Hrel.
    + destruct Hrel as [[Hacc He]|(msg & cause & Href & He)].
      * exists (gevs ++ [asked]), revs, None. eexists. rewrite Hshape.
        split; [reflexivity|]. split; [exact Hbefore|]. split; [reflexivity|].
        split; [|exact I]. constructor. exact Hacc.
      * exists (gevs ++ [asked]), revs, (Some (msg, cause)). eexists. rewrite Hshape.
        split; [reflexivity|]. split; [exact Hbefore|]. split; [reflexivity|].
        split; [exact Href|]. rewrite He. reflexivity.
  - rewrite StreamAdvice_run, Hloop. cbn [fst snd].
    exists gevs, [], None, [ObserveDuration advisor.advisorDuration].
    split; [reflexivity|]. split; [exact Hquiet|]. split; [reflexivity|].
    split; [|exact I]. constructor. constructor.
Qed.

(** *** The geocoding URL *)

Lemma hexdigit_unreserved n : (n < 16)%nat -> url.unreserved (url.hexdigit n) = true.
Proof.
  intros Hn. do 16 (destruct n as [|n]; [reflexivity|]). lia.
Qed.

Lemma not_escaped_differs c x :
  trace.escaped c = false -> trace.escaped x = true -> Ascii.eqb c x = false.
Proof.
  intros Hc Hx. destruct (Ascii.eqb c x) eqn:Heq; [|reflexivity].
  apply Ascii.eqb_eq in Heq. congruence.
Qed.

Lemma QueryEscape_bytes s c :
  trace.escaped c = false -> strings.Contains (url.QueryEscape s) (String c "") = false.
Proof.
  intros Hc. induction s as [|x s IH]; [reflexivity|].
  cbn [url.QueryEscape]. rewrite Contains_char_app, IH, orb_false_r.
  destruct (Ascii.eqb x " "%char).
  - rewrite Contains_char_cons, (not_escaped_differs c "+"%char Hc eq_refl). reflexivity.
  - destruct (url.unreserved x) eqn:Hx.
    + rewrite Contains_char_cons, (not_escaped_differs c x Hc); [reflexivity|].
      unfold trace.escaped. rewrite Hx. reflexivity.
    + cbv zeta. pose proof (nat_ascii_bounded x) as Hb.
      assert (forall n, (n < 16)%nat -> Ascii.eqb c (url.hexdigit n) = false) as Hhex.
      { intros n Hn. apply (not_escaped_differs c _ Hc). unfold trace.escaped.
        rewrite (hexdigit_unreserved n Hn). reflexivity. }
      rewrite !Contains_char_cons, (not_escaped_differs c "%"%char Hc eq_refl).
      rewrite !Hhex; [reflexivity| |].
      * apply Nat.mod_upper_bound. discriminate.
      * apply Nat.Div0.div_lt_upper_bound. exact Hb.
Qed.

(** X8. The city name cannot leave its place in the geocoding URL:
    escaped, it holds only letters, digits and the bytes [-_.~+%], so no
    space and none of [&], [=], [#], [?], [/], whatever the name is. *)
Theorem escaped_name_stays_in_its_parameter location :
  let name := url.QueryEscape location in
  advisor.geocodeURL location
  = "https://geocoding-api.open-meteo.com/v1/search?name=" +:+ name
    +:+ "&count=1&language=en&format=json"
  /\ (forall c, trace.escaped c = false -> strings.Contains name (String c "") = false)
  /\ strings.Contains name "&" = false
  /\ strings.Contains name "=" = false
  /\ strings.Contains name "#" = false
  /\ strings.Contains name "?" = false
  /\ strings.Contains name "/" = false
  /\ strings.Contains name " " = false.
Proof.
  cbv zeta. split; [reflexivity|]. split; [intros c; apply QueryEscape_bytes|].
  repeat split; apply QueryEscape_bytes; reflexivity.
Qed.

(** ** The start of the server *)



(** * The command line client *)

Lemma validate_known cities : forall acc,
  Forall cli.known cities -> cli.validate cities acc = inr (acc ++ map cli.named cities).
Proof.
  induction cities as [|city cities IH]; intros acc Hall.
  - rewrite app_nil_r. reflexivity.
  - inversion Hall as [|? ? [coords Hin] Hrest]; subst.
    cbn [cli.validate]. rewrite Hin, (IH _ Hrest), <- app_assoc. reflexivity.
Qed.

Lemma validate_unknown pre city post : forall acc,
  Forall cli.known pre -> cli.availableCities !! city = None ->
  cli.validate (pre ++ city :: post) acc = inl city.
Proof.
  induction pre as [|c pre IH]; intros acc Hall Hnone.
  - cbn [app cli.validate]. rewrite Hnone. reflexivity.
  - inversion Hall as [|? ? [coords Hin] Hrest]; subst.
    cbn [app cli.validate]. rewrite Hin. apply IH; assumption.
Qed.

(** X10. A city that is not in the table of the CLI never reaches the
    server: [getAdvice] names the first such city of the list in red and
    does nothing else, whatever comes after it and in either mode, and
    [getWeather] does the same; no connection is opened. *)
Theorem unknown_city_stops_cli srv pre city post stream :
  Forall cli.known pre ->
  cli.availableCities !! city = None ->
  cli.getAdvice srv (pre ++ city :: post) stream
  = [cli.Say cli.Red ("❌ City '" +:+ city +:+ "' not found!")]
  /\ cli.getWeather srv city
     = [cli.Say cli.Red
          ("City '" +:+ city
           +:+ "' not found! Use 'weather-advisor cities' to see available cities.")].
Proof.
  intros Hall Hnone. split.
  - unfold cli.getAdvice. rewrite (validate_unknown _ _ _ _ Hall Hnone). reflexivity.
  - unfold cli.getWeather. rewrite Hnone. reflexivity.
Qed.

Lemma unknown_city_stops_cli_witness :
  let srv := wire.served demo.usual [] None in
  cli.getAdvice srv (["London"; "Berlin"] ++ "Reykjavik" :: ["Nowhere"; "Paris"]) true
  = [cli.Say cli.Red "❌ City 'Reykjavik' not found!"]
  /\ cli.getWeather srv "Reykjavik"
     = [cli.Say cli.Red
          "City 'Reykjavik' not found! Use 'weather-advisor cities' to see available cities."].
Proof.
  cbv zeta.
  apply (unknown_city_stops_cli (wire.served demo.usual [] None)
           ["London"; "Berlin"] "Reykjavik" ["Nowhere"; "Paris"] true).
  - repeat constructor; eexists; vm_compute; reflexivity.
  - vm_compute. reflexivity.
Defined.

Lemma receive_no_calls incoming ending :
  List.filter cli.calls (cli.receive incoming ending).1 = [].
Proof.
  induction incoming as [|resp rest IH]; simpl.
  - destruct ending as [|err]; [reflexivity|]. destruct (cli.quietEnd err); reflexivity.
  - destruct (advisorpb.IsComplete resp); [reflexivity|].
    destruct (cli.receive rest ending) as [printed finished]. exact IH.
Qed.

(** X11. When every city of the list is in the table and the connection
    opens, [getAdvice] asks the server exactly once: it dials, then calls
    GetAdvice or, in streaming mode, StreamAdvice, with the cities in the
    order given, by name only, the state and country left empty. *)
Theorem known_cities_make_one_request srv cities stream :
  Forall cli.known cities ->
  cli.dial srv = None ->
  let req := {| advisorpb.Cities := map cli.named cities |} in
  List.filter cli.calls (cli.getAdvice srv cities stream)
  = [cli.Dial cli.serverAddr;
     if stream then cli.CallStreamAdvice req else cli.CallGetAdvice req].
Proof.
  intros Hall Hdial req. unfold cli.getAdvice.
  rewrite (validate_known _ [] Hall), Hdial. cbn [app]. fold req.
  destruct stream.
  - unfold cli.getStreamingAdvice. cbn [List.filter cli.calls]. do 2 f_equal.
    destruct (cli.StreamAdvice srv req) as [stream|err]; [|reflexivity].
    pose proof (receive_no_calls (cli.incoming stream) (cli.ending stream)) as Hrecv.
    destruct (cli.receive _ _) as [printed finished]. cbn [fst] in Hrecv.
    rewrite !List.filter_app, Hrecv. destruct finished; reflexivity.
  - unfold cli.getNormalAdvice. cbn [List.filter cli.calls]. do 2 f_equal.
    destruct (cli.GetAdvice srv req); reflexivity.
Qed.

Lemma known_cities_make_one_request_witness :
  let srv := wire.served demo.usual [] None in
  List.filter cli.calls (cli.getAdvice srv ["Berlin"; "Tokyo"] true)
  = [cli.Dial "localhost:8082";
     cli.CallStreamAdvice {| advisorpb.Cities := [cli.named "Berlin"; cli.named "Tokyo"] |}]
  /\ List.filter cli.calls (cli.getAdvice srv ["Berlin"; "Tokyo"] false)
     = [cli.Dial "localhost:8082";
        cli.CallGetAdvice {| advisorpb.Cities := [cli.named "Berlin"; cli.named "Tokyo"] |}].
Proof.
  cbv zeta. split.
  - apply (known_cities_make_one_request (wire.served demo.usual [] None)
             ["Berlin"; "Tokyo"] true); [|reflexivity].
    repeat constructor; eexists; vm_compute; reflexivity.
  - apply (known_cities_make_one_request (wire.served demo.usual [] None)
             ["Berlin"; "Tokyo"] false); [|reflexivity].
    repeat constructor; eexists; vm_compute; reflexivity.
Defined.

(** *** The streaming loop of the CLI *)

Lemma receive_spec incoming ending :
  let stream := {| cli.incoming := incoming; cli.ending := ending |} in
  cli.receive incoming ending
  = (map cli.shows (cli.beforeCompletion incoming)
     ++ (if cli.endsQuietly stream then [] else cli.complaint ending),
     cli.endsQuietly stream).
Proof.
  cbv zeta. unfold cli.endsQuietly. cbn [cli.incoming cli.ending].
  induction incoming as [|resp rest IH]; cbn [cli.receive cli.beforeCompletion existsb map].
  - destruct ending as [|err]; [reflexivity|]. cbn [orb].
    destruct (cli.quietEnd err); reflexivity.
  - destruct (advisorpb.IsComplete resp); [reflexivity|].
    rewrite IH. reflexivity.
Qed.

Lemma concatenated_app a b : concatenated (a ++ b) = concatenated a +:+ concatenated b.
Proof.
  induction a as [|x a IH]; [reflexivity|].
  cbn [app concatenated fold_right]. fold (concatenated (a ++ b)). fold (concatenated a).
  rewrite IH. symmetry. apply append_assoc.
Qed.

Lemma printed_app a b : cli.printed (a ++ b) = cli.printed a +:+ cli.printed b.
Proof. unfold cli.printed. rewrite flat_map_app. apply concatenated_app. Qed.

Lemma printed_shows msgs : cli.printed (map cli.shows msgs) = concatenated (map advisorpb.Chunk msgs).
Proof.
  unfold cli.printed. f_equal.
  induction msgs as [|m msgs IH]; [reflexivity|].
  cbn [map flat_map cli.shows app]. f_equal. exact IH.
Qed.

Lemma complaint_prints_nothing ending : cli.printed (cli.complaint ending) = "".
Proof. destruct ending; reflexivity. Qed.

Lemma quietEnd_streaming_failed before after :
  cli.quietEnd (before +:+ "streaming failed" +:+ after) = true.
Proof. unfold cli.quietEnd. rewrite (Contains_app before "streaming failed"). apply orb_true_r. Qed.

(** X12. What the streaming command of the CLI shows of a stream: it
    prints the text of the messages that come before the first one marked
    complete, and nothing of what follows; it ends with "Advice complete!"
    exactly when the stream holds a completion message, or ends with
    [io.EOF], or ends with an error whose message contains "context
    canceled", "connection is closing" or "streaming failed"; with any
    other error its last line is the error, in red. So a stream that the
    server broke off with "streaming failed" is shown as complete. *)
Theorem cli_stream_report srv req cities stream :
  cli.StreamAdvice srv req = Ok stream ->
  let actions := cli.getStreamingAdvice srv req cities in
  cli.printed actions
  = concatenated (map advisorpb.Chunk (cli.beforeCompletion (cli.incoming stream)))
  /\ (cli.said cli.HiGreen "✅ Advice complete!" actions <-> cli.endsQuietly stream = true)
  /\ (cli.endsQuietly stream = false ->
      exists err,
        cli.ending stream = cli.Failed err
        /\ last actions = Some (cli.Say cli.Red ("❌ Stream error: " +:+ err)))
  /\ (forall before after, cli.quietEnd (before +:+ "streaming failed" +:+ after) = true).
Proof.
  intros Hstream actions. unfold actions, cli.getStreamingAdvice. rewrite Hstream.
  pose proof (receive_spec (cli.incoming stream) (cli.ending stream)) as Hrecv.
  cbv zeta in Hrecv. destruct stream as [incoming ending]. cbn [cli.incoming cli.ending] in *.
  rewrite Hrecv. clear Hrecv.
  set (quiet := cli.endsQuietly {| cli.incoming := incoming; cli.ending := ending |}).
  set (head := cli.Say cli.HiYellow _).
  split; [|split; [|split; [|apply quietEnd_streaming_failed]]].
  - change (head :: ?call :: ?rest) with ([head; call] ++ rest).
    rewrite !printed_app, printed_shows.
    destruct quiet; [|rewrite complaint_prints_nothing];
      change (cli.printed _) with ""; cbn [String.append];
      rewrite ?append_empty_r; reflexivity.
  - unfold cli.said. subst head. destruct quiet eqn:Hquiet.
    + split; [reflexivity|]. intros _. apply in_cons, in_cons.
      apply in_or_app. right. apply in_or_app. right. right. left. reflexivity.
    + split; [|discriminate]. intros Hin. exfalso.
      destruct Hin as [H|[H|Hin]]; [discriminate H|discriminate H|].
      apply in_app_or in Hin as [Hin|Hin].
      * destruct Hin as [H|[H|[]]]; [|discriminate H].
        injection H as H. vm_compute in H. discriminate H.
      * apply in_app_or in Hin as [Hin|[]].
        apply in_app_or in Hin as [Hin|Hin].
        -- apply in_map_iff in Hin as (m & H & _). discriminate H.
        -- destruct ending as [|err]; [destruct Hin|]. destruct Hin as [H|[]]. discriminate H.
  - intros Hloud. fold quiet in Hloud. rewrite Hloud.
    destruct ending as [|err].
    + unfold quiet, cli.endsQuietly in Hloud. cbn [cli.ending] in Hloud.
      rewrite orb_true_r in Hloud. discriminate Hloud.
    + exists err. split; [reflexivity|]. rewrite app_nil_r.
      change (head :: ?call :: ?rest) with ([head; call] ++ rest).
      rewrite !app_assoc. apply last_snoc.
Qed.

Lemma cli_stream_report_witness :
  let broken :=
    {| cli.incoming := [advisor.chunk "Mild and "; advisor.chunk "partly"];
       cli.ending :=
         cli.Failed "rpc error: code = Unknown desc = advice generation failed: streaming failed: reset" |} in
  let srv :=
    {| cli.dial := None;
       cli.GetCurrentWeather := fun _ => Err "unused";
       cli.GetAdvice := fun _ => Err "unused";
       cli.StreamAdvice := fun _ => Ok broken |} in
  let actions := cli.getStreamingAdvice srv (demo.request ["London"]) ["London"] in
  cli.printed actions = "Mild and partly"
  /\ cli.said cli.HiGreen "✅ Advice complete!" actions.
Proof.
  cbv zeta.
  set (broken :=
         {| cli.incoming := [advisor.chunk "Mild and "; advisor.chunk "partly"];
            cli.ending :=
              cli.Failed "rpc error: code = Unknown desc = advice generation failed: streaming failed: reset" |}).
  destruct (cli_stream_report
              {| cli.dial := None;
                 cli.GetCurrentWeather := fun _ => Err "unused";
                 cli.GetAdvice := fun _ => Err "unused";
                 cli.StreamAdvice := fun _ => Ok broken |}
              (demo.request ["London"]) ["London"] broken eq_refl) as (Hprinted & Hsaid & _).
  split; [exact Hprinted|]. apply Hsaid. vm_compute. reflexivity.
Defined.

(** * Server and clients together *)

Lemma delivered_healthy env evs : forall h,
  wire.healthy env -> wire.delivered env h evs = sent_messages evs.
Proof.
  induction evs as [|ev evs IH]; intros h Hok; [reflexivity|].
  destruct ev; cbn [wire.delivered]; rewrite ?Hok, (IH _ Hok); reflexivity.
Qed.

Lemma sendParts_healthy env parts : forall h,
  wire.healthy env ->
  run (advisor.sendParts env parts) h = (Ok tt, sends (textsOf parts)).
Proof.
  induction parts as [|part parts IH]; intros h Hok; [reflexivity|].
  destruct part as [text| |]; try exact (IH h Hok).
  simpl. unfold_run. unfold advisor.Send, call. rewrite Hok.
  specialize (IH (h ++ [StreamSend (advisor.chunk text)]) Hok). unfold run in IH.
  rewrite IH. reflexivity.
Qed.

Lemma sendCandidates_healthy env cands : forall h,
  wire.healthy env ->
  run (advisor.sendCandidates env cands) h = (Ok tt, sends (textsOfCandidates cands)).
Proof.
  induction cands as [|cand cands IH]; intros h Hok; [reflexivity|].
  simpl. unfold_run.
  pose proof (sendParts_healthy env (genai.Parts (genai.CandidateContent cand)) h Hok) as Hp.
  unfold run in Hp. rewrite Hp.
  specialize (IH (h ++ sends (textsOf (genai.Parts (genai.CandidateContent cand)))) Hok).
  unfold run in IH. rewrite IH, sends_app. reflexivity.
Qed.

Lemma relay_healthy env pending stop : forall h,
  wire.healthy env ->
  run (advisor.relay env pending stop) h
  = if advisor.endOfStream stop
    then (Ok tt, sends (generated pending) ++ [StreamSend advisor.completion])
    else (Err ("streaming failed: " +:+ stop), sends (generated pending)).
Proof.
  induction pending as [|resp pending IH]; intros h Hok.
  - simpl. destruct (advisor.endOfStream stop); [|reflexivity].
    unfold run, advisor.Send, call. rewrite Hok. reflexivity.
  - cbn [advisor.relay]. unfold_run.
    pose proof (sendCandidates_healthy env (genai.Candidates resp) h Hok) as Hc.
    unfold run in Hc. rewrite Hc.
    specialize (IH (h ++ sends (textsOfCandidates (genai.Candidates resp))) Hok).
    unfold run in IH. rewrite IH, generated_cons, sends_app.
    destruct (advisor.endOfStream stop); [rewrite app_assoc|]; reflexivity.
Qed.

(** With a client that stays connected, a call of StreamAdvice whose
    cities went through sends every generated text and then, by the
    iterator's error, completes or fails. *)
Lemma StreamAdvice_healthy env s req h lines gevs :
  wire.healthy env ->
  run (advisor.gatherWeather env s (advisorpb.Cities req) []) h = (Ok lines, gevs) ->
  let prompt := advisor.advicePrompt lines in
  let asked := GenerateContentStream advisor.modelName prompt in
  let iter := generate_content_stream env (h ++ gevs) advisor.modelName prompt in
  run (advisor.StreamAdvice env s req) h
  = if advisor.endOfStream (genai.stop iter)
    then (Ok tt,
          gevs ++ asked :: (sends (generated (genai.pending iter))
                            ++ [StreamSend advisor.completion])
          ++ [CounterInc advisor.advisorRequests "success";
              ObserveDuration advisor.advisorDuration])
    else (Err ("advice generation failed: streaming failed: " +:+ genai.stop iter),
          gevs ++ asked :: sends (generated (genai.pending iter))
          ++ [CounterInc advisor.advisorRequests "error";
              ObserveDuration advisor.advisorDuration]).
Proof.
  intros Hok Hloop prompt asked iter.
  rewrite (StreamAdvice_relay _ _ _ _ _ _ Hloop). cbv zeta.
  fold prompt. fold asked. fold iter. rewrite (relay_healthy _ _ _ _ Hok).
  destruct (advisor.endOfStream (genai.stop iter)); reflexivity.
Qed.

Lemma beforeCompletion_chunks texts rest :
  cli.beforeCompletion (map advisor.chunk texts ++ advisor.completion :: rest)
  = map advisor.chunk texts.
Proof. induction texts as [|t texts IH]; [reflexivity|]. simpl. f_equal. exact IH. Qed.

Lemma beforeCompletion_only_chunks texts :
  cli.beforeCompletion (map advisor.chunk texts) = map advisor.chunk texts.
Proof. induction texts as [|t texts IH]; [reflexivity|]. simpl. f_equal. exact IH. Qed.

Lemma no_completion_in_chunks texts :
  existsb advisorpb.IsComplete (map advisor.chunk texts) = false.
Proof. induction texts as [|t texts IH]; [reflexivity|exact IH]. Qed.

Lemma gather_sends_nothing_of env cities acc h lines gevs :
  run (advisor.gatherWeather env (server env) cities acc) h = (Ok lines, gevs) ->
  sent_messages gevs = [].
Proof.
  intros Hloop. pose proof (gather_sends_nothing env cities acc h) as H.
  rewrite Hloop in H. exact H.
Qed.

(** The streaming command on a stream, line by line. *)
Lemma getStreamingAdvice_actions srv req cities stream :
  cli.StreamAdvice srv req = Ok stream ->
  cli.getStreamingAdvice srv req cities
  = cli.Say cli.HiYellow ("📡 Streaming AI advice for: " +:+ strings.Join cities ", ")
    :: cli.CallStreamAdvice req
    :: [ cli.Say cli.HiGreen (cli.LF +:+ "🎯 AI Weather Advice (Streaming)");
         cli.Say cli.Green (cli.Repeat "═" 60) ]
    ++ (map cli.shows (cli.beforeCompletion (cli.incoming stream))
        ++ (if cli.endsQuietly stream then [] else cli.complaint (cli.ending stream)))
    ++ (if cli.endsQuietly stream then
          [ cli.Say cli.Green (cli.LF +:+ cli.Repeat "═" 60);
            cli.Say cli.HiGreen "✅ Advice complete!" ]
        else []).
Proof.
  intros Hstream. unfold cli.getStreamingAdvice. rewrite Hstream.
  pose proof (receive_spec (cli.incoming stream) (cli.ending stream)) as Hrecv.
  cbv zeta in Hrecv. destruct stream as [incoming ending]. cbn [cli.incoming cli.ending] in *.
  rewrite Hrecv. reflexivity.
Qed.

Lemma getStreamingAdvice_printed srv req cities stream :
  cli.StreamAdvice srv req = Ok stream ->
  cli.printed (cli.getStreamingAdvice srv req cities)
  = concatenated (map advisorpb.Chunk (cli.beforeCompletion (cli.incoming stream))).
Proof.
  intros Hstream. rewrite (getStreamingAdvice_actions _ _ _ _ Hstream).
  match goal with
  | |- cli.printed (?a :: ?b :: ?rest) = _ => change (a :: b :: rest) with ([a; b] ++ rest)
  end.
  rewrite !printed_app, printed_shows.
  destruct (cli.endsQuietly stream); [|rewrite complaint_prints_nothing];
    change (cli.printed _) with ""; cbn [String.append];
    rewrite ?append_empty_r; reflexivity.
Qed.

(** X13. When the generation breaks off with an error that is not taken
    for the end of the stream, and the client stays connected, the server
    fails the call with "streaming failed"; the CLI, which gets that error
    from gRPC, prints what text had come, says nothing in red, and ends
    with "Advice complete!". *)
Theorem generation_failure_shown_complete env req cities h lines gevs :
  wire.healthy env ->
  run (advisor.gatherWeather env (server env) (advisorpb.Cities req) []) h = (Ok lines, gevs) ->
  let iter :=
    generate_content_stream env (h ++ gevs) advisor.modelName (advisor.advicePrompt lines) in
  advisor.endOfStream (genai.stop iter) = false ->
  let actions := cli.getStreamingAdvice (wire.served env h None) req cities in
  (run (advisor.StreamAdvice env (server env) req) h).1
  = Err ("advice generation failed: streaming failed: " +:+ genai.stop iter)
  /\ cli.printed actions = concatenated (generated (genai.pending iter))
  /\ cli.said cli.HiGreen "✅ Advice complete!" actions
  /\ (forall text, ~ In (cli.Say cli.Red text) actions).
Proof.
  intros Hok Hloop iter Hstop actions.
  pose proof (StreamAdvice_healthy _ _ _ _ _ _ Hok Hloop) as Hrun. cbv zeta in Hrun.
  fold iter in Hrun. rewrite Hstop in Hrun.
  split; [rewrite Hrun; reflexivity|].
  assert (cli.StreamAdvice (wire.served env h None) req
          = Ok {| cli.incoming := map advisor.chunk (generated (genai.pending iter));
                  cli.ending :=
                    cli.Failed
                      (("rpc error: code = Unknown desc = advice generation failed: "
                        +:+ "streaming failed") +:+ ": " +:+ genai.stop iter) |}) as Hstream.
  { cbn [wire.served cli.StreamAdvice]. unfold wire.streamed. rewrite Hrun. cbn [fst snd].
    rewrite (delivered_healthy _ _ _ Hok).
    rewrite sent_messages_around; [|apply (gather_sends_nothing_of _ _ _ _ _ _ Hloop)|reflexivity|reflexivity].
    rewrite sent_messages_sends. reflexivity. }
  pose proof (getStreamingAdvice_printed _ _ cities _ Hstream) as Hprinted.
  pose proof (getStreamingAdvice_actions _ _ cities _ Hstream) as Hactions.
  fold actions in Hprinted, Hactions.
  assert (cli.endsQuietly
            {| cli.incoming := map advisor.chunk (generated (genai.pending iter));
               cli.ending :=
                 cli.Failed
                   (("rpc error: code = Unknown desc = advice generation failed: "
                     +:+ "streaming failed") +:+ ": " +:+ genai.stop iter) |} = true) as Hquiet.
  { unfold cli.endsQuietly. cbn [cli.incoming cli.ending].
    rewrite append_assoc, quietEnd_streaming_failed. apply orb_true_r. }
  rewrite Hquiet in Hactions. cbn [cli.incoming] in *.
  rewrite beforeCompletion_only_chunks in Hprinted, Hactions.
  rewrite chunk_texts in Hprinted.
  split; [exact Hprinted|]. rewrite Hactions. split.
  - unfold cli.said. apply in_cons, in_cons. apply in_or_app. right.
    apply in_or_app. right. right. left. reflexivity.
  - intros text Hin.
    destruct Hin as [H|[H|Hin]]; [discriminate H|discriminate H|].
    apply in_app_or in Hin as [[H|[H|[]]]|Hin]; [discriminate H|discriminate H|].
    apply in_app_or in Hin as [Hin|[H|[H|[]]]]; [|discriminate H|discriminate H].
    apply in_app_or in Hin as [Hin|[]].
    apply in_map_iff in Hin as (m & H & _). discriminate H.
Qed.

Lemma generation_failure_shown_complete_witness :
  let env := demo.env (inr demo.reply)
               (demo.iterator "rpc error: code = Unavailable desc = connection reset") in
  let actions :=
    cli.getStreamingAdvice (wire.served env [] None) (demo.request ["London"]) ["London"] in
  (run (advisor.StreamAdvice env (server env) (demo.request ["London"])) []).1
  = Err "advice generation failed: streaming failed: rpc error: code = Unavailable desc = connection reset"
  /\ cli.printed actions = "Mild and partly cloudy."
  /\ cli.said cli.HiGreen "✅ Advice complete!" actions.
Proof.
  cbv zeta.
  set (env := demo.env (inr demo.reply)
                (demo.iterator "rpc error: code = Unavailable desc = connection reset")).
  edestruct (generation_failure_shown_complete env (demo.request ["London"]) ["London"] [])
    as (Hrun & Hprinted & Hsaid & _);
    [intros h msg; reflexivity|vm_compute; reflexivity|vm_compute; reflexivity|].
  split; [exact Hrun|]. split; [exact Hprinted|exact Hsaid].
Defined.

(** *** The stream client *)

Lemma streamclient_receive_chunks texts rest ending :
  streamclient.receive (map advisor.chunk texts ++ rest) ending
  = (map streamclient.Print texts ++ (streamclient.receive rest ending).1,
     (streamclient.receive rest ending).2).
Proof.
  induction texts as [|t texts IH].
  - cbn [map app]. destruct (streamclient.receive rest ending); reflexivity.
  - cbn [map app streamclient.receive advisor.chunk advisorpb.IsComplete advisorpb.Chunk].
    rewrite IH. reflexivity.
Qed.

Lemma nonfinal_only_chunks texts :
  List.filter (fun m => negb (advisorpb.IsComplete m)) (map advisor.chunk texts)
  = map advisor.chunk texts.
Proof. induction texts as [|t texts IH]; simpl; [reflexivity|]. f_equal. exact IH. Qed.

(** X14. The stream client against the server, the client staying
    connected: it prints the text of every non-final message the server
    sent, in order; then, when StreamAdvice returned no error, "Advice
    complete!" and the closing rule; and when StreamAdvice returned an
    error, whichever step failed, it dies on that error, without "Advice
    complete!". *)
Theorem stream_client_end_to_end env h :
  wire.healthy env ->
  let out := run (advisor.StreamAdvice env (server env) streamclient.request) h in
  let texts :=
    map advisorpb.Chunk
      (List.filter (fun m => negb (advisorpb.IsComplete m)) (sent_messages out.2)) in
  streamclient.main (wire.served env h None)
  = [ streamclient.Dial "localhost:8080";
      streamclient.Println "Getting weather advice (streaming)...";
      streamclient.Println (cli.Repeat "=" 50);
      streamclient.CallStreamAdvice streamclient.request ]
    ++ map streamclient.Print texts
    ++ match out.1 with
       | Ok _ =>
           [ streamclient.Println (advisor.LF +:+ "Advice complete!");
             streamclient.Println (advisor.LF +:+ cli.Repeat "=" 50) ]
       | Err e => [streamclient.LogFatal ("rpc error: code = Unknown desc = " +:+ e)]
       end.
Proof.
  intros Hok. cbv zeta. unfold streamclient.main.
  cbn [wire.served cli.dial cli.StreamAdvice]. unfold wire.streamed.
  cbn [cli.incoming cli.ending]. rewrite (delivered_healthy _ _ _ Hok).
  destruct (run (advisor.gatherWeather env (server env)
                   (advisorpb.Cities streamclient.request) []) h)
    as [[lines|err] gevs] eqn:Hloop.
  - rewrite (StreamAdvice_healthy _ _ _ _ _ _ Hok Hloop). cbv zeta.
    pose proof (gather_sends_nothing_of _ _ _ _ _ _ Hloop) as Hquiet.
    destruct (advisor.endOfStream _); cbn [fst snd];
      (rewrite sent_messages_around; [|exact Hquiet|reflexivity|reflexivity]).
    + rewrite sent_messages_app, sent_messages_sends.
      change (sent_messages [StreamSend advisor.completion]) with [advisor.completion].
      rewrite nonfinal_chunks, chunk_texts, streamclient_receive_chunks.
      cbn [streamclient.receive advisor.completion advisorpb.IsComplete fst snd].
      rewrite <- !app_assoc. reflexivity.
    + rewrite sent_messages_sends, nonfinal_only_chunks, chunk_texts.
      rewrite <- (app_nil_r (map advisor.chunk _)), streamclient_receive_chunks.
      cbn [streamclient.receive fst snd]. rewrite app_nil_r. reflexivity.
  - pose proof (gather_sends_nothing env (advisorpb.Cities streamclient.request) [] h) as Hquiet.
    rewrite Hloop in Hquiet. cbn [snd] in Hquiet.
    rewrite StreamAdvice_run, Hloop. cbn [fst snd].
    rewrite sent_messages_app, Hquiet. reflexivity.
Qed.

Lemma stream_client_end_to_end_witness :
  streamclient.main (wire.served demo.usual [] None)
  = [ streamclient.Dial "localhost:8080";
      streamclient.Println "Getting weather advice (streaming)...";
      streamclient.Println (cli.Repeat "=" 50);
      streamclient.CallStreamAdvice streamclient.request;
      streamclient.Print "Mild and ";
      streamclient.Print "partly cloudy.";
      streamclient.Print "";
      streamclient.Println (advisor.LF +:+ "Advice complete!");
      streamclient.Println (advisor.LF +:+ cli.Repeat "=" 50) ].
Proof.
  rewrite (stream_client_end_to_end demo.usual []); [|intros h msg; reflexivity].
  vm_compute. reflexivity.
Defined.

(** *** The two tables of cities *)

Lemma cli_names name :
  cli.known name
  <-> name ∈ ["New York"; "London"; "Tokyo"; "Paris"; "Los Angeles"; "Chicago"; "Sydney";
              "Berlin"; "Toronto"; "Mumbai"; "Dubai"; "Singapore"; "San Francisco";
              "Miami"; "Barcelona"].
Proof.
  unfold cli.known. rewrite <- elem_of_dom. unfold cli.availableCities.
  rewrite dom_list_to_map_L, elem_of_list_to_set. reflexivity.
Qed.

(** X15. The table of the CLI holds every city of the advisor's table,
    at the same coordinate; the eight others it offers (Berlin, Toronto,
    Mumbai, Dubai, Singapore, San Francisco, Miami, Barcelona) pass the
    CLI's check but are unknown to the advisor's table, so for them the
    advisor does not use the CLI's coordinate: it asks the geocoding
    provider, once per call. *)
Theorem cli_table_extends_advisor_table :
  (forall name coords,
      advisor.cityCoords !! name = Some coords -> cli.availableCities !! name = Some coords)
  /\ (forall name,
        cli.known name /\ advisor.cityCoords !! name = None
        <-> name ∈ ["Berlin"; "Toronto"; "Mumbai"; "Dubai"; "Singapore"; "San Francisco";
                    "Miami"; "Barcelona"])
  /\ (forall env city apiKey h,
        cli.known (advisorpb.Location city) ->
        advisor.cityCoords !! advisorpb.Location city = None ->
        (run (advisor.geocodeCity env city apiKey) h).2
        = [HttpGet (advisor.geocodeURL (advisorpb.Location city))]).
Proof.
  split; [|split].
  - intros name coords Hin.
    assert (name ∈ advisor.hintNames) as Hname by (apply curated_names; eauto).
    unfold advisor.hintNames in Hname.
    repeat (apply elem_of_cons in Hname as [->|Hname];
            [vm_compute in Hin; injection Hin as <-; vm_compute; reflexivity|]).
    apply elem_of_nil in Hname. destruct Hname.
  - intros name. split.
    + intros [Hknown Hnone]. apply cli_names in Hknown.
      repeat (apply elem_of_cons in Hknown as [->|Hknown];
              [first [discriminate Hnone | repeat constructor]|]).
      apply elem_of_nil in Hknown. destruct Hknown.
    + intros Hname.
      repeat (apply elem_of_cons in Hname as [->|Hname];
              [split; [eexists; vm_compute; reflexivity|vm_compute; reflexivity]|]).
      apply elem_of_nil in Hname. destruct Hname.
  - intros env city apiKey h _ Hnone. apply geocodeCity_remote_events, Hnone.
Qed.

(** *** The weather report *)

(** X16. The weather command of the CLI against the server, for a city
    of its table and an open connection: it asks GetCurrentWeather once,
    at the coordinate of the table. When the fetch succeeds the report
    shows the same number as temperature and as "feels like", and the
    pressure line always reads 1013 hPa; when it fails the last line is
    the server's error, in red. *)
Theorem weather_report_end_to_end env h city coords :
  cli.availableCities !! city = Some coords ->
  let req := {| weatherpb.Latitude := coords.1; weatherpb.Longitude := coords.2 |} in
  let actions := cli.getWeather (wire.served env h None) city in
  List.filter cli.calls actions = [cli.Dial cli.serverAddr; cli.CallGetCurrentWeather req]
  /\ match (run (weather.GetCurrentWeather env req) h).1 with
     | Ok w =>
         let shown := fmt.f 1 (weatherpb.Temperature w) in
         In (cli.Print ("Temperature: " +:+ shown +:+ advisor.degree +:+ "C (feels like "
                        +:+ shown +:+ advisor.degree +:+ "C)" +:+ advisor.LF)) actions
         /\ In (cli.Print ("Pressure: 1013 hPa" +:+ advisor.LF)) actions
         /\ In (cli.Print ("Condition: " +:+ weatherpb.Description w +:+ advisor.LF)) actions
     | Err e =>
         last actions
         = Some (cli.Say cli.Red
                   ("Weather request failed: rpc error: code = Unknown desc = " +:+ e))
     end.
Proof.
  intros Hin req actions. unfold actions, cli.getWeather. rewrite Hin.
  cbn [wire.served cli.dial cli.GetCurrentWeather]. fold req.
  destruct (run (weather.GetCurrentWeather env req) h) as [[w|e] evs] eqn:Hrun; cbn [fst].
  - apply GetCurrentWeather_ok in Hrun as (resp & data & _ & _ & _ & _ & ->).
    cbn [wire.unary]. split; [reflexivity|]. cbv zeta.
    cbn [weatherpb.Temperature weatherpb.FeelsLike weatherpb.Pressure weatherpb.Description].
    split; [|split].
    + do 5 right. left. reflexivity.
    + do 9 right. left. reflexivity.
    + do 6 right. left. reflexivity.
  - cbn [wire.unary]. split; reflexivity.
Qed.

Lemma weather_report_end_to_end_witness :
  let req := {| weatherpb.Latitude := (41.3851, 2.1734)%float.1;
                weatherpb.Longitude := (41.3851, 2.1734)%float.2 |} in
  let actions := cli.getWeather (wire.served demo.usual [] None) "Barcelona" in
  cli.availableCities !! "Barcelona" = Some (41.3851, 2.1734)%float
  /\ List.filter cli.calls actions = [cli.Dial cli.serverAddr; cli.CallGetCurrentWeather req]
  /\ exists w,
       (run (weather.GetCurrentWeather demo.usual req) []).1 = Ok w
       /\ fmt.f 1 (weatherpb.Temperature w) = "18.5"
       /\ In (cli.Print ("Temperature: " +:+ fmt.f 1 (weatherpb.Temperature w)
                         +:+ advisor.degree +:+ "C (feels like "
                         +:+ fmt.f 1 (weatherpb.Temperature w)
                         +:+ advisor.degree +:+ "C)" +:+ advisor.LF)) actions
       /\ In (cli.Print ("Pressure: 1013 hPa" +:+ advisor.LF)) actions.
Proof.
  cbv zeta. split; [vm_compute; reflexivity|].
  destruct (weather_report_end_to_end demo.usual [] "Barcelona" (41.3851, 2.1734)%float)
    as (Hcalls & Hshown); [vm_compute; reflexivity|].
  split; [exact Hcalls|].
  destruct (run (weather.GetCurrentWeather demo.usual _) []).1 as [w|e] eqn:Hrun.
  - exists w. split; [reflexivity|]. split.
    + vm_compute in Hrun. injection Hrun as <-. vm_compute. reflexivity.
    + destruct Hshown as (Htemp & Hpressure & _). split; [exact Htemp|exact Hpressure].
  - vm_compute in Hrun. discriminate Hrun.
Defined.
